(** * muscle-app: the workout-log record model, its import/export and its
      aggregates, embedded from [src/App.tsx] (local-storage variant) and from
      the Supabase variant of the same application.

    The development follows the source top-down: ECMAScript strings, numbers
    and dynamic values first, then the record model ([isLog],
    [normalizeExercise]), the CSV layer ([toCSV], [parseCSV],
    [csvRowsToLogs]), reconciliation ([mergeLogs], [onImportFile]), the
    dashboard aggregates ([dailyData], [prSet]) and the one-shot migration
    effect of the Supabase variant. *)

From Stdlib Require Import Ascii String.
From Stdlib Require Import List ZArith NArith Lia Bool Permutation Sorted.
From Stdlib Require Import DecimalString DecimalN DecimalZ DecimalPos.
Import ListNotations.

Set Implicit Arguments.
Set Warnings "-register-all".
Local Open Scope Z_scope.

(* ================================================================= *)
(** ** ECMAScript strings

    A JavaScript string is a sequence of UTF-16 code units; [length],
    [slice], [===] and [<] all work on code units, so a string is modelled
    as the list of its code units. *)

Definition char := N.
Definition jstring := list char.

(** ASCII literals of the source are written [js "..."]. *)
Definition js (s : string) : jstring :=
  map N_of_ascii (list_ascii_of_string s).

Definition QUOTE : char := 34%N.   (* double quote *)
Definition COMMA : char := 44%N.   (* comma *)
Definition LF    : char := 10%N.   (* line feed, \n *)
Definition CR    : char := 13%N.   (* carriage return, \r *)
Definition DASH  : char := 45%N.   (* hyphen-minus *)
Definition DIGIT0 : char := 48%N.  (* digit zero *)

Fixpoint str_eqb (a b : jstring) : bool :=
  match a, b with
  | [], [] => true
  | x :: a', y :: b' => N.eqb x y && str_eqb a' b'
  | _, _ => false
  end.

(** [a < b] on strings: lexicographic on code units (IsLessThan). *)
Fixpoint str_ltb (a b : jstring) : bool :=
  match a, b with
  | _, [] => false
  | [], _ :: _ => true
  | x :: a', y :: b' =>
      if N.ltb x y then true
      else if N.eqb x y then str_ltb a' b'
      else false
  end.

(** [s.slice(0, n)] for a non-negative [n]. *)
Definition slice0 (n : nat) (s : jstring) : jstring := firstn n s.

(** [s.endsWith(suffix)]. *)
Definition endsWith (s suffix : jstring) : bool :=
  str_eqb (skipn (length s - length suffix) s) suffix
  && Nat.leb (length suffix) (length s).

(** WhiteSpace and LineTerminator code units, as [String.prototype.trim]
    strips them. *)
Definition isWhiteSpace (c : char) : bool :=
  existsb (N.eqb c)
    [9; 10; 11; 12; 13; 32; 160; 5760; 8232; 8233; 8239; 8287; 12288; 65279]%N
  || (N.leb 8192 c && N.leb c 8202).

Fixpoint trimStart (s : jstring) : jstring :=
  match s with
  | c :: s' => if isWhiteSpace c then trimStart s' else s
  | [] => []
  end.

Definition trim (s : jstring) : jstring :=
  rev (trimStart (rev (trimStart s))).

(** [s.trim()] is not the empty string. *)
Definition nonBlank (s : jstring) : bool :=
  match trim s with [] => false | _ :: _ => true end.

(** [s.split(sep)] for a one-unit separator: always at least one piece. *)
Fixpoint str_split (sep : char) (s : jstring) : list jstring :=
  match s with
  | [] => [[]]
  | c :: s' =>
      if N.eqb c sep then [] :: str_split sep s'
      else match str_split sep s' with
           | p :: ps => (c :: p) :: ps
           | [] => [[c]]
           end
  end.

(** [pieces.join(sep)]. *)
Fixpoint str_join (sep : jstring) (pieces : list jstring) : jstring :=
  match pieces with
  | [] => []
  | [p] => p
  | p :: ps => p ++ sep ++ str_join sep ps
  end.

(** Decimal numerals of integers, as template literals and [String] print
    integer-valued numbers. *)
Definition decimalN (n : N) : jstring :=
  js (NilEmpty.string_of_uint (N.to_uint n)).

Definition decimalZ (z : Z) : jstring :=
  js (NilEmpty.string_of_int (Z.to_int z)).

(** [String(n).padStart(2, zero digit)] for a natural number. *)
Definition pad2 (n : N) : jstring :=
  let s := decimalN n in
  match s with
  | [_] => DIGIT0 :: s
  | _ => s
  end.

(* ================================================================= *)
(** ** ECMAScript numbers

    The program compares numbers with zero and with each other, adds and
    multiplies them, and converts them from and to strings.  These
    operations are an interface; the laws are the facts of the language
    standard the proofs rely on.  Negative zero is identified with zero. *)

Class JsNumber := {
  number : Type;
  NaN : number;
  of_Z : Z -> number;                       (* integer literals *)
  num_lt : number -> number -> bool;        (* a < b  *)
  num_le : number -> number -> bool;        (* a <= b *)
  num_add : number -> number -> number;
  num_mul : number -> number -> number;
  num_isNaN : number -> bool;               (* Number.isNaN *)
  num_isFinite : number -> bool;            (* Number.isFinite *)
  num_toBoolean : number -> bool;           (* truthiness *)
  num_toString : number -> jstring;         (* String(x) *)
  num_ofString : jstring -> number;         (* Number(s), s a string *)
  (* laws *)
  num_lt_irrefl : forall x, num_lt x x = false;
  num_lt_trans :
    forall x y z, num_lt x y = true -> num_lt y z = true -> num_lt x z = true;
  num_pos_notNaN : forall x, num_lt (of_Z 0) x = true -> num_isNaN x = false;
  num_pos_not_le : forall x, num_lt (of_Z 0) x = true -> num_le x (of_Z 0) = false;
  num_falsy : forall x, num_toBoolean x = false -> x = of_Z 0 \/ num_isNaN x = true;
  num_zero_falsy : num_toBoolean (of_Z 0) = false;
  num_toString_ofString :
    forall x, num_lt (of_Z 0) x = true -> num_ofString (num_toString x) = x;
  num_toString_plain :
    forall x c, In c (num_toString x) ->
                c <> QUOTE /\ c <> COMMA /\ c <> LF /\ c <> CR
}.

Definition zero `{JsNumber} : number := of_Z 0.

(** [a > b] *)
Definition num_gt `{JsNumber} (a b : number) : bool := num_lt b a.

(** [x || 0] on a number. *)
Definition num_or_zero `{JsNumber} (x : number) : number :=
  if num_toBoolean x then x else zero.

(* ================================================================= *)
(** ** Exceptions and small list helpers *)

Inductive Error := TypeError | SyntaxError.

Inductive result (A : Type) : Type :=
| Ok (a : A)
| Throw (e : Error).
Arguments Ok {A} a.
Arguments Throw {A} e.

(** [arr.map((x, i) => f i x)], the index made explicit. *)
Fixpoint mapi_from {A B : Type} (i : nat) (f : nat -> A -> B) (l : list A) : list B :=
  match l with
  | [] => []
  | x :: t => f i x :: mapi_from (S i) f t
  end.

Definition mapi {A B : Type} (f : nat -> A -> B) (l : list A) : list B :=
  mapi_from 0 f l.

(** [arr.filter(Boolean)] after a map that returns an entry or [null]. *)
Fixpoint filterSome {A : Type} (l : list (option A)) : list A :=
  match l with
  | [] => []
  | Some x :: t => x :: filterSome t
  | None :: t => filterSome t
  end.

(** [arr[i]] for an index that may be [-1] or past the end. *)
Definition at_index {A : Type} (l : list A) (i : Z) : option A :=
  if i <? 0 then None else nth_error l (Z.to_nat i).

(** ** The built-in [Map]: keys in insertion order, [set] on a present key
    replaces the value in place. *)
Module JsMap.
Section Defs.
Variable V : Type.

Definition t := list (jstring * V).

Definition empty : t := [].

Fixpoint set (k : jstring) (v : V) (m : t) : t :=
  match m with
  | [] => [(k, v)]
  | (k', v') :: m' =>
      if str_eqb k' k then (k', v) :: m' else (k', v') :: set k v m'
  end.

Fixpoint get (k : jstring) (m : t) : option V :=
  match m with
  | [] => None
  | (k', v') :: m' => if str_eqb k' k then Some v' else get k m'
  end.

Definition has (k : jstring) (m : t) : bool :=
  match get k m with Some _ => true | None => false end.

Definition keys (m : t) : list jstring := map fst m.
Definition values (m : t) : list V := map snd m.
Definition entries (m : t) : list (jstring * V) := m.
End Defs.
End JsMap.

(** [arr.sort(cmp)]: the built-in sort is stable; [cmp a b > 0] asks for [b]
    before [a].  Modelled as a stable insertion sort. *)
Section Sort.
Variable A : Type.
Variable cmp : A -> A -> Z.

Fixpoint sort_insert (x : A) (l : list A) : list A :=
  match l with
  | [] => [x]
  | y :: t => if cmp x y >? 0 then y :: sort_insert x t else x :: y :: t
  end.

Definition sort_by (l : list A) : list A := fold_right sort_insert [] l.
End Sort.

(* ================================================================= *)
(** ** Dynamic values, as [JSON.parse] returns them and as [any] holds them *)

Section Model.
Context {Num : JsNumber}.

Inductive value : Type :=
| VUndefined
| VNull
| VBool (b : bool)
| VNum (n : number)
| VStr (s : jstring)
| VArr (items : list value)
| VObj (props : list (jstring * value)).

Inductive TypeTag := TUndefined | TObject | TBoolean | TNumber | TString.

Definition typeof (v : value) : TypeTag :=
  match v with
  | VUndefined => TUndefined
  | VNull | VArr _ | VObj _ => TObject
  | VBool _ => TBoolean
  | VNum _ => TNumber
  | VStr _ => TString
  end.

Definition isString (v : value) : bool :=
  match typeof v with TString => true | _ => false end.
Definition isNumber (v : value) : bool :=
  match typeof v with TNumber => true | _ => false end.
Definition isObject (v : value) : bool :=
  match typeof v with TObject => true | _ => false end.

Definition toBoolean (v : value) : bool :=
  match v with
  | VUndefined | VNull => false
  | VBool b => b
  | VNum n => num_toBoolean n
  | VStr s => match s with [] => false | _ :: _ => true end
  | VArr _ | VObj _ => true
  end.

(** [a || b] *)
Definition js_or (a b : value) : value := if toBoolean a then a else b.

Fixpoint lookup (k : jstring) (props : list (jstring * value)) : value :=
  match props with
  | [] => VUndefined
  | (k', v) :: ps => if str_eqb k' k then v else lookup k ps
  end.

(** [v?.k]: none of the property names the program reads ([id], [date],
    [exercise], [weight], [reps], [note], [logs]) exists on a primitive or on
    an array, so only plain objects answer. *)
Definition prop (v : value) (k : string) : value :=
  match v with
  | VObj props => lookup (js k) props
  | _ => VUndefined
  end.

Definition isArray (v : value) : bool :=
  match v with VArr _ => true | _ => false end.

(** [String(v)] *)
Fixpoint ToString (v : value) : jstring :=
  match v with
  | VUndefined => js "undefined"
  | VNull => js "null"
  | VBool true => js "true"
  | VBool false => js "false"
  | VNum n => num_toString n
  | VStr s => s
  | VArr items =>
      str_join [COMMA]
        (map (fun x => match x with
                       | VUndefined | VNull => []
                       | _ => ToString x
                       end) items)
  | VObj _ => js "[object Object]"
  end.

(** [Number(v)] *)
Definition ToNumber (v : value) : number :=
  match v with
  | VUndefined => NaN
  | VNull => of_Z 0
  | VBool true => of_Z 1
  | VBool false => of_Z 0
  | VNum n => n
  | VStr s => num_ofString s
  | VArr _ | VObj _ => num_ofString (ToString v)
  end.

(* ================================================================= *)
(** ** Record model *)

Inductive Exercise :=
| BenchPress | Squat | Deadlift | ShoulderPress | Rowing
| SideRaise | LyingExtension | EZBarCurl | Other.

(** The string each member of the union type is. *)
Definition label (e : Exercise) : jstring :=
  match e with
  | BenchPress => [12505; 12531; 12481; 12503; 12524; 12473]
  | Squat => [12473; 12463; 12527; 12483; 12488]
  | Deadlift => [12487; 12483; 12489; 12522; 12501; 12488]
  | ShoulderPress => [12471; 12519; 12523; 12480; 12540; 12503; 12524; 12473]
  | Rowing => [12525; 12540; 12452; 12531; 12464]
  | SideRaise => [12469; 12452; 12489; 12524; 12452; 12474]
  | LyingExtension =>
      [12521; 12452; 12452; 12531; 12464; 12456; 12463; 12473; 12486; 12531;
       12471; 12519; 12531]
  | EZBarCurl => [69; 90; 12496; 12540; 12459; 12540; 12523]
  | Other => [12381; 12398; 20182]
  end%N.

Definition EXERCISES : list Exercise :=
  [BenchPress; Squat; Deadlift; ShoulderPress; Rowing;
   SideRaise; LyingExtension; EZBarCurl; Other].

Definition Exercise_eqb (a b : Exercise) : bool :=
  match a, b with
  | BenchPress, BenchPress | Squat, Squat | Deadlift, Deadlift
  | ShoulderPress, ShoulderPress | Rowing, Rowing | SideRaise, SideRaise
  | LyingExtension, LyingExtension | EZBarCurl, EZBarCurl | Other, Other => true
  | _, _ => false
  end.

(** [EXERCISES.includes(val)] *)
Definition EXERCISES_includes (val : value) : bool :=
  match val with
  | VStr s => existsb (fun e => str_eqb (label e) s) EXERCISES
  | _ => false
  end.

Definition normalizeExercise (val : value) : Exercise :=
  match val with
  | VStr s =>
      match find (fun e => str_eqb (label e) s) EXERCISES with
      | Some e => e
      | None => Other
      end
  | _ => Other
  end.

Record Log := mkLog {
  id : jstring;
  date : jstring;
  exercise : Exercise;
  weight : number;
  reps : number;
  note : option jstring
}.

(** The object a [Log] is at run time. *)
Definition Log_value (l : Log) : value :=
  VObj [ (js "id", VStr (id l));
         (js "date", VStr (date l));
         (js "exercise", VStr (label (exercise l)));
         (js "weight", VNum (weight l));
         (js "reps", VNum (reps l));
         (js "note", match note l with Some n => VStr n | None => VUndefined end) ].

Definition isLog (x : value) : bool :=
  toBoolean x
  && isString (prop x "id")
  && isString (prop x "date")
  && isNumber (prop x "weight")
  && isNumber (prop x "reps")
  && EXERCISES_includes (prop x "exercise").


(* ================================================================= *)
(** ** Serialization layer: CSV *)

Definition CSV_HEADER : list jstring :=
  [js "date"; js "exercise"; js "weight"; js "reps"; js "note"].

Record CsvRow := mkCsvRow {
  row_date : jstring;
  row_exercise : jstring;
  row_weight : jstring;
  row_reps : jstring;
  row_note : jstring
}.

(** [(r as any)[k]], with the fallback to the empty string for a key the
    row does not have. *)
Definition row_get (r : CsvRow) (k : jstring) : jstring :=
  if str_eqb k (js "date") then row_date r
  else if str_eqb k (js "exercise") then row_exercise r
  else if str_eqb k (js "weight") then row_weight r
  else if str_eqb k (js "reps") then row_reps r
  else if str_eqb k (js "note") then row_note r
  else [].

(** [s.replace(/QUOTE/g, QUOTE QUOTE)] *)
Definition doubleQuotes (s : jstring) : jstring :=
  flat_map (fun c => if N.eqb c QUOTE then [QUOTE; QUOTE] else [c]) s.

(** The test of the regular expression with the three characters quote,
    comma and line feed. *)
Definition needsQuoting (v : jstring) : bool :=
  existsb (fun c => N.eqb c QUOTE || N.eqb c COMMA || N.eqb c LF) v.

Definition csvCell (v : jstring) : jstring :=
  if needsQuoting v then QUOTE :: v ++ [QUOTE] else v.

Definition toCSV_row (l : Log) : CsvRow :=
  {| row_date := date l;
     row_exercise := label (exercise l);
     row_weight := num_toString (weight l);
     row_reps := num_toString (reps l);
     row_note := doubleQuotes (match note l with Some n => n | None => [] end) |}.

Definition toCSV_line (r : CsvRow) : jstring :=
  str_join [COMMA] (map (fun k => csvCell (row_get r k)) CSV_HEADER).

Definition toCSV (logs : list Log) : jstring :=
  let rows := map toCSV_row logs in
  let header := str_join [COMMA] CSV_HEADER in
  let body := str_join [LF] (map toCSV_line rows) in
  header ++ [LF] ++ body.

(** [text.replace(/\r\n?/g, LF)] *)
Fixpoint normalizeNewlines (s : jstring) : jstring :=
  match s with
  | [] => []
  | c :: s' =>
      if N.eqb c CR then
        match s' with
        | c2 :: s'' => if N.eqb c2 LF then LF :: normalizeNewlines s''
                       else LF :: normalizeNewlines s'
        | [] => [LF]
        end
      else c :: normalizeNewlines s'
  end.

Definition nonEmpty (s : jstring) : bool :=
  match s with [] => false | _ :: _ => true end.

Definition csvLines (text : jstring) : list jstring :=
  filter nonEmpty (str_split LF (normalizeNewlines text)).

(** [header.findIndex(h => h === name)], [-1] when absent. *)
Fixpoint findIndex_from (i : Z) (name : jstring) (header : list jstring) : Z :=
  match header with
  | [] => -1
  | h :: t => if str_eqb h name then i else findIndex_from (i + 1) name t
  end.

Definition findIndex (name : jstring) (header : list jstring) : Z :=
  findIndex_from 0 name header.

(** The inner loop of [parseCSV] over the characters of one line, from the
    state ([row], [cur], [inQ]); ends with the final [row.push(cur)]. *)
Fixpoint scanLine (line : jstring) (row : list jstring) (cur : jstring) (inQ : bool)
  : list jstring :=
  match line with
  | [] => row ++ [cur]
  | ch :: rest =>
      if inQ then
        if N.eqb ch QUOTE then
          match rest with
          | ch2 :: rest2 =>
              if N.eqb ch2 QUOTE then scanLine rest2 row (cur ++ [QUOTE]) true
              else scanLine rest row cur false
          | [] => scanLine rest row cur false
          end
        else scanLine rest row (cur ++ [ch]) true
      else
        if N.eqb ch COMMA then scanLine rest (row ++ [cur]) [] false
        else if N.eqb ch QUOTE then scanLine rest row cur true
        else scanLine rest row (cur ++ [ch]) false
  end.

(** [row[i] ?? empty] *)
Definition cell (row : list jstring) (i : Z) : jstring :=
  match at_index row i with Some s => s | None => [] end.

Definition parseCSV_row (header : list jstring) (line : jstring) : CsvRow :=
  let row := scanLine line [] [] false in
  {| row_date := cell row (findIndex (js "date") header);
     row_exercise := cell row (findIndex (js "exercise") header);
     row_weight := cell row (findIndex (js "weight") header);
     row_reps := cell row (findIndex (js "reps") header);
     row_note := cell row (findIndex (js "note") header) |}.

(** [lines[0].split(...)] on an empty [lines] reads a property of
    [undefined]: a [TypeError]. *)
Definition parseCSV (text : jstring) : result (list CsvRow) :=
  match csvLines text with
  | [] => Throw TypeError
  | line0 :: data =>
      let header := map trim (str_split COMMA line0) in
      Ok (map (parseCSV_row header) data)
  end.

(** One row of [csvRowsToLogs]; [suffix] is what
    [Math.random().toString(36).slice(2, 8)] returned for it. *)
Definition csvRowToLog (suffix : jstring) (r : CsvRow) : option Log :=
  let w := ToNumber (VStr (row_weight r)) in
  let rp := ToNumber (VStr (row_reps r)) in
  let date := slice0 10 (ToString (js_or (VStr (row_date r)) (VStr []))) in
  let ex := normalizeExercise (VStr (row_exercise r)) in
  let id := date ++ [DASH] ++ label ex ++ [DASH] ++ suffix in
  let note := if nonEmpty (row_note r) && nonBlank (row_note r)
              then Some (row_note r) else None in
  if negb (nonEmpty date) || num_isNaN w || num_isNaN rp
     || num_le w zero || num_le rp zero
  then None
  else Some (mkLog id date ex w rp note).

Definition csvRowsToLogs (rnd : nat -> jstring) (rows : list CsvRow) : list Log :=
  filterSome (mapi (fun i r => csvRowToLog (rnd i) r) rows).

(* ================================================================= *)
(** ** Reconciliation layer *)

(** The comparator handed to [sort] in [mergeLogs]. *)
Definition byDateDesc (a b : Log) : Z :=
  if str_ltb (date a) (date b) then 1
  else if str_ltb (date b) (date a) then -1
  else 0.

Definition mergeLogs_step (m : JsMap.t Log) (l : Log) : JsMap.t Log :=
  if isLog (Log_value l) then JsMap.set (id l) l m else m.

(** [mergeLogs], as the state update [prev => ...] it hands to [setLogs]. *)
Definition mergeLogs (prev incoming : list Log) : list Log :=
  let m := fold_left mergeLogs_step (prev ++ incoming) (JsMap.empty Log) in
  sort_by byDateDesc (JsMap.values m).

(** *** JSON export and import *)



(** The array the JSON branch of [onImportFile] takes from the parsed
    document: the document itself, or its [logs] property. *)
Definition importJSON_array (obj : value) : list value :=
  match obj with
  | VArr items => items
  | _ =>
      if toBoolean obj && isObject obj && isArray (prop obj "logs")
      then match prop obj "logs" with VArr items => items | _ => [] end
      else []
  end.

(** The object the [map] callback builds from one element; [fallback] is
    the template string of [Date.now()] and [Math.random()]. *)
Definition importJSON_entry (fallback : jstring) (l : value) : Log :=
  {| id := match prop l "id" with VStr s => s | _ => fallback end;
     date := slice0 10 (ToString (js_or (prop l "date") (VStr [])));
     exercise := normalizeExercise (prop l "exercise");
     weight := ToNumber (prop l "weight");
     reps := ToNumber (prop l "reps");
     note := match prop l "note" with
             | VStr n => if nonBlank n then Some n else None
             | _ => None
             end |}.

Definition importJSON (fresh : nat -> jstring) (obj : value) : list Log :=
  filter (fun l => isLog (Log_value l))
         (mapi (fun i l => importJSON_entry (fresh i) l) (importJSON_array obj)).

(** *** The import handler *)

Record AppState := mkState { logs : list Log; toast : jstring }.
Record File := mkFile { file_name : jstring; file_text : jstring }.

Definition MSG_PICK_JSON_OR_CSV : jstring :=
  [46; 106; 115; 111; 110; 32; 12363; 32; 46; 99; 115; 118; 32; 12434;
   36984; 12435; 12391; 12397]%N.
Definition MSG_IMPORT_FAILED : jstring :=
  [12452; 12531; 12509; 12540; 12488; 12395; 22833; 25943; 12375; 12383; 12424]%N.
Definition MSG_IMPORTED (kind : jstring) (n : nat) : jstring :=
  kind ++ [12434]%N ++ decimalN (N.of_nat n)
       ++ [20214; 12452; 12531; 12509; 12540; 12488; 12375; 12383; 12424]%N.

Section ImportHandler.
(** [JSON.parse]: the parsed document, or the [SyntaxError] it throws. *)
Variable JSON_parse : jstring -> result value.
(** The strings the two identifier templates produce, by position. *)
Variable fresh : nat -> jstring.
Variable rnd : nat -> jstring.

Definition onImportFile (st : AppState) (file : option File) : AppState :=
  match file with
  | None => st
  | Some f =>
      if endsWith (file_name f) (js ".json") then
        match JSON_parse (file_text f) with
        | Ok obj =>
            let incoming := importJSON fresh obj in
            {| logs := mergeLogs (logs st) incoming;
               toast := MSG_IMPORTED (js "JSON") (length incoming) |}
        | Throw _ => {| logs := logs st; toast := MSG_IMPORT_FAILED |}
        end
      else if endsWith (file_name f) (js ".csv") then
        match parseCSV (file_text f) with
        | Ok rows =>
            let incoming := csvRowsToLogs rnd rows in
            {| logs := mergeLogs (logs st) incoming;
               toast := MSG_IMPORTED (js "CSV") (length incoming) |}
        | Throw _ => {| logs := logs st; toast := MSG_IMPORT_FAILED |}
        end
      else {| logs := logs st; toast := MSG_PICK_JSON_OR_CSV |}
  end.
End ImportHandler.

(* ================================================================= *)
(** ** One-shot migration of the legacy snapshot (Supabase variant) *)

Record MigrationRow := mkRow {
  m_date : jstring;
  m_exercise : Exercise;
  m_weight : number;
  m_reps : number;
  m_note : option jstring;
  m_user_id : jstring
}.

Definition migrationRow (userId : jstring) (l : value) : MigrationRow :=
  {| m_date := slice0 10 (ToString (js_or (prop l "date") (VStr [])));
     m_exercise := normalizeExercise (prop l "exercise");
     m_weight := ToNumber (prop l "weight");
     m_reps := ToNumber (prop l "reps");
     m_note := match prop l "note" with
               | VStr n => if nonBlank n then Some n else None
               | _ => None
               end;
     m_user_id := userId |}.

Definition migrationKeeps (r : MigrationRow) : bool :=
  nonEmpty (m_date r) && num_gt (m_weight r) zero && num_gt (m_reps r) zero.

Definition migrationRows (userId : jstring) (arr : list value) : list MigrationRow :=
  filter migrationKeeps (map (migrationRow userId) arr).

(** How the promise of [supabase.from(...).insert(rows)] settles: the client
    fulfils it with a result object whose [error] is set when the insert
    failed; the promise is rejected only when the call itself throws. *)
Inductive InsertOutcome :=
| Fulfilled (error : option jstring)
| Rejected.

Record MigrationResult := mkMigration {
  submitted : option (list MigrationRow);   (* the batch handed to insert *)
  snapshot_after : option jstring           (* localStorage under STORAGE_KEY *)
}.

Section Migration.
Variable JSON_parse : jstring -> result value.

Definition migrationEffect (userId : jstring) (snapshot : option jstring)
           (outcome : InsertOutcome) : MigrationResult :=
  match snapshot with
  | None => mkMigration None snapshot
  | Some raw =>
      if negb (nonEmpty raw) then mkMigration None snapshot
      else
        match JSON_parse raw with
        | Throw _ => mkMigration None snapshot
        | Ok parsed =>
            let arr := if isArray parsed then parsed else prop parsed "logs" in
            match arr with
            | VArr (x :: xs) =>
                let rows := migrationRows userId (x :: xs) in
                match outcome with
                | Fulfilled _ => mkMigration (Some rows) None
                | Rejected => mkMigration (Some rows) snapshot
                end
            | _ => mkMigration None snapshot
            end
        end
  end.
End Migration.

(* ================================================================= *)
(** ** Aggregation engine *)

(** *** Calendar dates

    A [Date] object is read only through [getFullYear], [getMonth]
    (zero-based) and [getDate], and moved only by
    [d.setDate(d.getDate() - i)]; the time of day plays no part. *)

Record JsDate := mkDate {
  getFullYear : Z;
  getMonth : N;      (* 0 .. 11 *)
  getDate : N        (* 1 .. 31 *)
}.

Definition isLeapYear (y : Z) : bool :=
  (y mod 4 =? 0) && (negb (y mod 100 =? 0) || (y mod 400 =? 0)).

Definition daysInMonth (y : Z) (m : N) : N :=
  match m with
  | 1 => if isLeapYear y then 29 else 28
  | 3 | 5 | 8 | 10 => 30
  | _ => 31
  end%N.

Definition validDate (d : JsDate) : Prop :=
  (getMonth d <= 11)%N /\ (1 <= getDate d <= daysInMonth (getFullYear d) (getMonth d))%N.

(** The calendar day before [d]. *)
Definition prevDay (d : JsDate) : JsDate :=
  if (1 <? getDate d)%N then mkDate (getFullYear d) (getMonth d) (getDate d - 1)
  else if (0 <? getMonth d)%N then
    mkDate (getFullYear d) (getMonth d - 1)
           (daysInMonth (getFullYear d) (getMonth d - 1))
  else mkDate (getFullYear d - 1) 11 31.

(** [d.setDate(d.getDate() - i)]: the day-of-month underflows into the
    months before, one calendar day per unit. *)
Fixpoint daysBefore (i : nat) (d : JsDate) : JsDate :=
  match i with
  | O => d
  | S k => daysBefore k (prevDay d)
  end.

Definition formatDate (d : JsDate) : jstring :=
  let y := decimalZ (getFullYear d) in
  let m := pad2 (getMonth d + 1) in
  let dd := pad2 (getDate d) in
  y ++ [DASH] ++ m ++ [DASH] ++ dd.

(** [volume]: the total of weight times reps. *)
Definition volume (arr : list Log) : number :=
  fold_left (fun s x => num_add s (num_mul (weight x) (reps x))) arr zero.

(** *** The 30-day daily-volume series *)

Definition lastNDays : nat := 30.

(** The values [i] takes in [for (i = lastNDays - 1; i >= 0; i--)]. *)
Definition windowOffsets : list nat := rev (seq 0 lastNDays).

Definition dailyData_init (today : JsDate) : JsMap.t number :=
  fold_left (fun m i => JsMap.set (formatDate (daysBefore i today)) zero m)
            windowOffsets (JsMap.empty number).

Definition dailyData_step (m : JsMap.t number) (l : Log) : JsMap.t number :=
  if JsMap.has (date l) m then
    let cur := match JsMap.get (date l) m with
               | Some v => num_or_zero v
               | None => zero
               end in
    JsMap.set (date l) (num_add cur (num_mul (weight l) (reps l))) m
  else m.

(** [dailyData]: the pairs [{date, vol}], with [new Date()] read as
    [today]. *)
Definition dailyData (today : JsDate) (logs : list Log) : list (jstring * number) :=
  JsMap.entries (fold_left dailyData_step logs (dailyData_init today)).

(** *** Personal records *)

Definition BestTable := Exercise -> number.

(** [Object.fromEntries(EXERCISES.map(e => [e, 0]))] *)
Definition bestInit : BestTable := fun _ => zero.

Definition bestSet (res : BestTable) (e : Exercise) (w : number) : BestTable :=
  fun e' => if Exercise_eqb e' e then w else res e'.

(** [if (l.weight > res[l.exercise]) res[l.exercise] = l.weight] *)
Definition bestStep (res : BestTable) (l : Log) : BestTable :=
  if num_gt (weight l) (res (exercise l)) then bestSet res (exercise l) (weight l)
  else res.

Definition logsForDate (logs : list Log) (dateStr : jstring) : list Log :=
  filter (fun l => str_eqb (date l) dateStr) logs.

Definition todayBestByExercise (logs : list Log) (dateStr : jstring) : BestTable :=
  fold_left bestStep (logsForDate logs dateStr) bestInit.

Definition prevBestByExercise (logs : list Log) (dateStr : jstring) : BestTable :=
  fold_left bestStep
            (filter (fun l => negb (str_eqb (date l) dateStr)) logs) bestInit.

Definition prSet (logs : list Log) (dateStr : jstring) : list Exercise :=
  filter (fun ex =>
            num_gt (todayBestByExercise logs dateStr ex) zero
            && num_gt (todayBestByExercise logs dateStr ex)
                      (prevBestByExercise logs dateStr ex))
         EXERCISES.

(** The dates of the window, oldest first. *)
Definition window (today : JsDate) : list jstring :=
  map (fun i => formatDate (daysBefore i today)) windowOffsets.

(** The total of one date as the loop of [dailyData] accumulates it: every
    entry of that date adds weight times reps to the running total, read
    through [|| 0]. *)
Definition dayVolume (logs : list Log) (ds : jstring) : number :=
  fold_left (fun acc l => num_add (num_or_zero acc) (num_mul (weight l) (reps l)))
            (filter (fun l => str_eqb (date l) ds) logs) zero.

(** The best weight of one exercise as the specification words it: the
    maximum weight over the entries of that exercise, 0 when there is
    none. *)
Definition bestWeight_spec (entries : list Log) (e : Exercise) : number :=
  fold_left (fun best w => if num_gt w best then w else best)
            (map weight (filter (fun l => Exercise_eqb (exercise l) e) entries))
            zero.

End Model.

(* ================================================================= *)
(** ** Notions the statements use *)

(** A decimal digit. *)
Definition isDigit (c : char) : bool := (48 <=? c)%N && (c <=? 57)%N.

(** A date in the form the source comments on the [date] field,
    [yyyy-mm-dd]: ten code units, digits around two hyphens. *)
Definition isYMD (s : jstring) : bool :=
  match s with
  | [y1; y2; y3; y4; h1; m1; m2; h2; d1; d2] =>
      isDigit y1 && isDigit y2 && isDigit y3 && isDigit y4 && N.eqb h1 DASH
      && isDigit m1 && isDigit m2 && N.eqb h2 DASH && isDigit d1 && isDigit d2
  | _ => false
  end.

(** A valid entry of the record model: a calendar date, a positive finite
    weight and repetition count, and a note that is absent or not blank
    (the exercise is one of the nine by its type). *)
Definition validEntry `{JsNumber} (l : Log) : bool :=
  isYMD (date l)
  && num_gt (weight l) zero && num_isFinite (weight l)
  && num_gt (reps l) zero && num_isFinite (reps l)
  && match note l with Some n => nonBlank n | None => true end.

(** String equality decided unit by unit, as the statements below mean
    it when they speak of the same date. *)
Definition sameString (a b : jstring) : bool :=
  if list_eq_dec N.eq_dec a b then true else false.

(** The entries on a date, and the entries on every other date, as the
    specification selects them. *)
Definition entriesOnDate `{JsNumber} (entries : list Log) (ds : jstring) : list Log :=
  filter (fun l => sameString (date l) ds) entries.

Definition entriesOnOtherDates `{JsNumber} (entries : list Log) (ds : jstring)
  : list Log :=
  filter (fun l => negb (sameString (date l) ds)) entries.

(** The sum of weight times reps over entries, in their order, and the
    total of a date as the specification words it: that sum over the
    entries of the date. *)
Definition sumProducts `{JsNumber} (entries : list Log) : number :=
  fold_left num_add (map (fun l => num_mul (weight l) (reps l)) entries) zero.

Definition dayTotal_spec `{JsNumber} (entries : list Log) (ds : jstring) : number :=
  sumProducts (entriesOnDate entries ds).



(** The lines of a text: the maximal runs of code units other than line
    feed and carriage return, the empty ones left out. *)
Definition isBreak (c : char) : bool := N.eqb c LF || N.eqb c CR.

Fixpoint splitBreaks (s : jstring) : list jstring :=
  match s with
  | [] => [[]]
  | c :: s' =>
      if isBreak c then [] :: splitBreaks s'
      else match splitBreaks s' with
           | p :: ps => (c :: p) :: ps
           | [] => [[c]]
           end
  end.

Definition nonEmptyLines (text : jstring) : list jstring :=
  filter nonEmpty (splitBreaks text).

(** The entry of a list that a keyed overwrite in list order leaves under
    the identifier [i]: the last one that carries it. *)
Fixpoint lastWithId `{JsNumber} (i : jstring) (ls : list Log) : option Log :=
  match ls with
  | [] => None
  | l :: t =>
      match lastWithId i t with
      | Some x => Some x
      | None => if str_eqb (id l) i then Some l else None
      end
  end.

(** Every value of the map sits under its own identifier. *)
Definition keyedById `{JsNumber} (m : JsMap.t Log) : Prop :=
  Forall (fun kv => fst kv = id (snd kv)) m.

(** A rank of dates that the calendar order respects. *)
Definition dateRank (d : JsDate) : Z :=
  getFullYear d * 372 + Z.of_N (getMonth d) * 31 + Z.of_N (getDate d).






(** The fields of an entry other than its identifier. *)
Definition entryFields `{JsNumber} (l : Log) :=
  (date l, exercise l, weight l, reps l, note l).

(** Export, then import: [csvRowsToLogs(parseCSV(toCSV(logs)))]. *)
Definition csvRoundTrip `{JsNumber} (rnd : nat -> jstring) (logs : list Log)
  : result (list Log) :=
  match parseCSV (toCSV logs) with
  | Ok rows => Ok (csvRowsToLogs rnd rows)
  | Throw e => Throw e
  end.

(* ================================================================= *)
(** ** The integer fragment of the numbers

    Integers and [NaN], printed and read as decimal numerals.  It shows
    the interface [JsNumber] inhabited and lets the examples below compute;
    numerals in other notations (fractions, exponents), which ECMAScript
    reads as numbers, are outside the fragment and no example uses them. *)

Module IntNumber.

Inductive t := Nan | Int (z : Z).

Definition lt (a b : t) : bool :=
  match a, b with Int x, Int y => x <? y | _, _ => false end.
Definition le (a b : t) : bool :=
  match a, b with Int x, Int y => x <=? y | _, _ => false end.
Definition add (a b : t) : t :=
  match a, b with Int x, Int y => Int (x + y) | _, _ => Nan end.
Definition mul (a b : t) : t :=
  match a, b with Int x, Int y => Int (x * y) | _, _ => Nan end.
Definition isNaN (a : t) : bool :=
  match a with Nan => true | Int _ => false end.
Definition isFinite (a : t) : bool := negb (isNaN a).
Definition toBoolean (a : t) : bool :=
  match a with Nan => false | Int z => negb (z =? 0) end.
Definition toString (a : t) : jstring :=
  match a with Nan => js "NaN" | Int z => decimalZ z end.

(** The characters of an ASCII string, [None] when a code unit is not one. *)
Fixpoint asciiString (s : jstring) : option string :=
  match s with
  | [] => Some EmptyString
  | c :: s' =>
      if (c <? 256)%N then
        match asciiString s' with
        | Some r => Some (String (ascii_of_N c) r)
        | None => None
        end
      else None
  end.

(** [Number(s)]: white space is trimmed, the empty string reads as 0, a
    decimal integer as itself, anything else as [NaN]. *)
Definition ofString (s : jstring) : t :=
  match trim s with
  | [] => Int 0
  | s' =>
      match asciiString s' with
      | Some str =>
          match NilZero.int_of_string str with
          | Some d => Int (Z.of_int d)
          | None => Nan
          end
      | None => Nan
      end
  end.

End IntNumber.

(* ================================================================= *)
(** * Facts about strings, and the integer fragment *)

(** ** Strings *)

Lemma str_eqb_spec (a b : jstring) : str_eqb a b = true <-> a = b.
Proof.
  revert b; induction a as [|x a IH]; intros [|y b]; simpl; split;
    try congruence; try reflexivity.
  - intros H. apply andb_true_iff in H as [H1 H2].
    apply N.eqb_eq in H1. apply IH in H2. congruence.
  - intros [= -> ->]. rewrite N.eqb_refl. simpl. now apply IH.
Qed.

Lemma str_eqb_refl (a : jstring) : str_eqb a a = true.
Proof. now apply str_eqb_spec. Qed.

Lemma str_eqb_false (a b : jstring) : str_eqb a b = false <-> a <> b.
Proof.
  split.
  - intros H E. apply str_eqb_spec in E. congruence.
  - intros H. destruct (str_eqb a b) eqn:E; [|reflexivity].
    apply str_eqb_spec in E. contradiction.
Qed.

Lemma str_eqb_sym (a b : jstring) : str_eqb a b = str_eqb b a.
Proof.
  destruct (str_eqb a b) eqn:E.
  - apply str_eqb_spec in E. subst. symmetry. apply str_eqb_refl.
  - symmetry. apply str_eqb_false. apply str_eqb_false in E. congruence.
Qed.

Lemma js_inj (s s' : string) : js s = js s' -> s = s'.
Proof.
  unfold js. revert s'. induction s as [|a s IH]; intros [|a' s']; simpl;
    try congruence.
  intros [= H1 H2]. f_equal.
  - rewrite <- (ascii_N_embedding a), <- (ascii_N_embedding a'). now rewrite H1.
  - now apply IH.
Qed.

Lemma decimalZ_inj (a b : Z) : decimalZ a = decimalZ b -> a = b.
Proof.
  unfold decimalZ. intros H. apply js_inj in H.
  assert (E : Some (Z.to_int a) = Some (Z.to_int b)).
  { rewrite <- !NilEmpty.isi. now rewrite H. }
  injection E as E.
  rewrite <- (DecimalZ.of_to a), <- (DecimalZ.of_to b). now rewrite E.
Qed.

Lemma decimalN_inj (a b : N) : decimalN a = decimalN b -> a = b.
Proof.
  unfold decimalN. intros H. apply js_inj in H.
  assert (E : Some (N.to_uint a) = Some (N.to_uint b)).
  { rewrite <- !NilEmpty.usu. now rewrite H. }
  injection E as E.
  rewrite <- (DecimalN.Unsigned.of_to a), <- (DecimalN.Unsigned.of_to b).
  now rewrite E.
Qed.

Lemma uint_digits (u : Decimal.uint) :
  Forall (fun c => isDigit c = true) (js (NilEmpty.string_of_uint u)).
Proof.
  induction u; simpl; constructor; auto.
Qed.

Lemma decimalN_digits (n : N) : Forall (fun c => isDigit c = true) (decimalN n).
Proof. apply uint_digits. Qed.

Lemma decimalZ_chars (z : Z) :
  Forall (fun c => isDigit c = true \/ c = DASH) (decimalZ z).
Proof.
  unfold decimalZ. destruct (Z.to_int z) as [u|u]; simpl.
  - eapply Forall_impl; [|apply uint_digits]. simpl; auto.
  - constructor; [now right|].
    eapply Forall_impl; [|apply uint_digits]. simpl; auto.
Qed.

Lemma trimStart_id (s : jstring) :
  match s with [] => True | c :: _ => isWhiteSpace c = false end ->
  trimStart s = s.
Proof. destruct s as [|c s]; simpl; [reflexivity|]. now intros ->. Qed.

Lemma trim_id (s : jstring) :
  Forall (fun c => isWhiteSpace c = false) s -> trim s = s.
Proof.
  intros H. unfold trim.
  rewrite (trimStart_id s) by (destruct H; auto).
  rewrite trimStart_id; [apply rev_involutive|].
  apply Forall_rev in H. destruct H; auto.
Qed.

Lemma isDigit_not_space (c : char) : isDigit c = true -> isWhiteSpace c = false.
Proof.
  unfold isDigit. intros H. apply andb_true_iff in H as [H1 H2].
  apply N.leb_le in H1, H2.
  unfold isWhiteSpace. apply orb_false_iff. split.
  - simpl. repeat (apply orb_false_iff; split); try reflexivity;
      apply N.eqb_neq; lia.
  - apply andb_false_iff. left. apply N.leb_gt. lia.
Qed.


(** The order of strings is a strict total order. *)

Lemma str_ltb_irrefl (a : jstring) : str_ltb a a = false.
Proof.
  induction a as [|x a IH]; simpl; [reflexivity|].
  rewrite N.ltb_irrefl, N.eqb_refl. exact IH.
Qed.

Lemma str_ltb_asym (a b : jstring) : str_ltb a b = true -> str_ltb b a = false.
Proof.
  revert b; induction a as [|x a IH]; intros [|y b]; simpl; try congruence.
  destruct (N.ltb_spec x y) as [Hxy|Hxy].
  - intros _. destruct (N.ltb_spec y x); [lia|].
    destruct (N.eqb_spec y x); [lia|reflexivity].
  - destruct (N.eqb_spec x y) as [->|Hne]; [|discriminate].
    rewrite N.ltb_irrefl, N.eqb_refl. apply IH.
Qed.

Lemma str_geb_trans (a b c : jstring) :
  str_ltb a b = false -> str_ltb b c = false -> str_ltb a c = false.
Proof.
  revert b c; induction a as [|x a IH]; intros [|y b] [|z c]; simpl;
    try congruence.
  destruct (N.ltb_spec x y), (N.eqb_spec x y), (N.ltb_spec y z), (N.eqb_spec y z),
    (N.ltb_spec x z), (N.eqb_spec x z);
    intros Hab Hbc; try discriminate; try lia; try reflexivity; subst; eauto.
Qed.

(** ** The integer fragment satisfies the laws of the interface *)

Lemma asciiString_js (s : string) : IntNumber.asciiString (js s) = Some s.
Proof.
  induction s as [|a s IH]; simpl; [reflexivity|].
  fold (js s). rewrite IH.
  pose proof (N_ascii_bounded a) as Hb. apply N.ltb_lt in Hb. rewrite Hb.
  now rewrite ascii_N_embedding.
Qed.

Lemma IntNumber_ofString_toString (x : IntNumber.t) :
  IntNumber.lt (IntNumber.Int 0) x = true ->
  IntNumber.ofString (IntNumber.toString x) = x.
Proof.
  destruct x as [|z]; simpl; [discriminate|].
  intros Hz. apply Z.ltb_lt in Hz. destruct z as [|p|p]; try lia.
  unfold IntNumber.ofString, decimalZ. simpl Z.to_int. simpl NilEmpty.string_of_int.
  rewrite trim_id.
  2:{ eapply Forall_impl; [|apply uint_digits]. apply isDigit_not_space. }
  pose proof (DecimalPos.Unsigned.to_uint_nonnil p) as Hnil.
  assert (Hs : NilEmpty.string_of_uint (Pos.to_uint p)
               = NilZero.string_of_int (Decimal.Pos (Pos.to_uint p))).
  { simpl. destruct (Pos.to_uint p); first [contradiction | reflexivity]. }
  destruct (js (NilEmpty.string_of_uint (Pos.to_uint p))) eqn:E.
  - exfalso. destruct (Pos.to_uint p); first [contradiction | discriminate].
  - rewrite <- E, asciiString_js, Hs, NilZero.isi.
    + f_equal. change (Z.of_int (Z.to_int (Z.pos p)) = Z.pos p).
      apply DecimalZ.of_to.
    + congruence.
    + congruence.
Qed.

Lemma IntNumber_toString_plain (x : IntNumber.t) (c : char) :
  In c (IntNumber.toString x) ->
  c <> QUOTE /\ c <> COMMA /\ c <> LF /\ c <> CR.
Proof.
  destruct x as [|z]; simpl.
  - unfold QUOTE, COMMA, LF, CR. intros [<-|[<-|[<-|[]]]]; repeat split; discriminate.
  - intros Hin. pose proof (decimalZ_chars z) as H.
    rewrite Forall_forall in H. destruct (H _ Hin) as [Hd| ->].
    + unfold isDigit in Hd. apply andb_true_iff in Hd as [H1 H2].
      apply N.leb_le in H1, H2. unfold QUOTE, COMMA, LF, CR.
      repeat split; lia.
    + unfold DASH, QUOTE, COMMA, LF, CR. repeat split; discriminate.
Qed.

#[export] Instance IntNum : JsNumber.
Proof.
  refine {|
    number := IntNumber.t;
    NaN := IntNumber.Nan;
    of_Z := IntNumber.Int;
    num_lt := IntNumber.lt;
    num_le := IntNumber.le;
    num_add := IntNumber.add;
    num_mul := IntNumber.mul;
    num_isNaN := IntNumber.isNaN;
    num_isFinite := IntNumber.isFinite;
    num_toBoolean := IntNumber.toBoolean;
    num_toString := IntNumber.toString;
    num_ofString := IntNumber.ofString;
    num_toString_ofString := IntNumber_ofString_toString;
    num_toString_plain := IntNumber_toString_plain
  |}.
  - intros [|z]; simpl; [reflexivity|apply Z.ltb_irrefl].
  - intros [|x] [|y] [|z]; simpl; try discriminate.
    rewrite !Z.ltb_lt. lia.
  - intros [|z]; simpl; [discriminate|reflexivity].
  - intros [|z]; simpl; [discriminate|].
    intros H. apply Z.ltb_lt in H. apply Z.leb_gt. exact H.
  - intros [|z]; simpl; [now right|].
    intros H. left. apply negb_false_iff, Z.eqb_eq in H. now subst.
  - reflexivity.
Defined.

(* ================================================================= *)
(** * Entries and documents of the examples, on the integer fragment *)

(** An ASCII text between double quotes. *)
Definition quoted (s : string) : jstring := QUOTE :: js s ++ [QUOTE].

(** Two valid entries; the second has a note with a comma. *)
Definition squat_100x3 : Log (Num := IntNum) :=
  mkLog (js "a1") (js "2024-01-01") Squat (IntNumber.Int 100) (IntNumber.Int 3) None.

Definition bench_80x5 : Log (Num := IntNum) :=
  mkLog (js "b2") (js "2024-01-02") BenchPress (IntNumber.Int 80) (IntNumber.Int 5)
        (Some (js "good, form")).

(** A supply for the identifier templates; no example depends on it. *)
Definition noFresh : nat -> jstring := fun _ => js "fresh".

(** An element of a JSON document with a weight of -5. *)
Definition negativeWeightElement : value (Num := IntNum) :=
  VObj [ (js "id", VStr (js "a1"));
         (js "date", VStr (js "2024-01-01"));
         (js "exercise", VStr (label Squat));
         (js "weight", VNum (IntNumber.Int (-5)));
         (js "reps", VNum (IntNumber.Int 3)) ].

(** The entry the JSON branch builds from it. *)
Definition negativeWeightLog : Log (Num := IntNum) :=
  mkLog (js "a1") (js "2024-01-01") Squat (IntNumber.Int (-5)) (IntNumber.Int 3) None.

(** The same data as a row of a CSV file. *)
Definition negativeWeightRow : CsvRow :=
  mkCsvRow (js "2024-01-01") (label Squat) (js "-5") (js "3") [].

(** The legacy snapshot: a bare array with one valid entry. *)
Definition legacySnapshot : jstring :=
  js "[{" ++ quoted "date" ++ js ":" ++ quoted "2024-01-01" ++ js ","
     ++ quoted "weight" ++ js ":100," ++ quoted "reps" ++ js ":3}]".

(** The document that text denotes. *)
Definition legacySnapshot_parsed : value (Num := IntNum) :=
  VArr [ VObj [ (js "date", VStr (js "2024-01-01"));
                (js "weight", VNum (IntNumber.Int 100));
                (js "reps", VNum (IntNumber.Int 3)) ] ].

(** [JSON.parse] on the texts of the examples. *)
Definition JSON_parse_example (text : jstring) : result (value (Num := IntNum)) :=
  if str_eqb text legacySnapshot then Ok legacySnapshot_parsed
  else Throw SyntaxError.

(** The note is the letter a, a line feed, the letter b. *)
Definition twoLineNoteLog : Log (Num := IntNum) :=
  mkLog (js "a1") (js "2024-01-01") Squat (IntNumber.Int 100) (IntNumber.Int 3)
        (Some (js "a" ++ [LF] ++ js "b")).


(* ================================================================= *)
(** * Facts about the program *)

(** ** The built-in sort and map *)

Section SortFacts.
Variable A : Type.
Variable cmp : A -> A -> Z.
(** [before a b]: the comparator lets [a] stay in front of [b]. *)
Let before (a b : A) : Prop := (cmp a b >? 0) = false.
Hypothesis before_total : forall a b, (cmp a b >? 0) = true -> before b a.
Hypothesis before_trans : forall a b c, before a b -> before b c -> before a c.

Lemma sort_insert_perm (x : A) (l : list A) :
  Permutation (sort_insert cmp x l) (x :: l).
Proof.
  induction l as [|y t IH]; simpl; [reflexivity|].
  destruct (cmp x y >? 0); [|reflexivity].
  rewrite IH. apply perm_swap.
Qed.

Lemma sort_by_perm (l : list A) : Permutation (sort_by cmp l) l.
Proof.
  induction l as [|x t IH]; simpl; [reflexivity|].
  rewrite sort_insert_perm. now constructor.
Qed.

Lemma sort_insert_sorted (x : A) (l : list A) :
  StronglySorted before l -> StronglySorted before (sort_insert cmp x l).
Proof.
  induction 1 as [|y t Hs IH Hall]; simpl.
  - repeat constructor.
  - destruct (cmp x y >? 0) eqn:E.
    + constructor; [exact IH|].
      eapply Permutation_Forall; [symmetry; apply sort_insert_perm|].
      constructor; [now apply before_total|exact Hall].
    + constructor; [now constructor|].
      constructor; [exact E|].
      eapply Forall_impl; [|exact Hall]. intros z Hz.
      eapply before_trans; eauto.
Qed.

Lemma sort_by_sorted (l : list A) : StronglySorted before (sort_by cmp l).
Proof.
  induction l as [|x t IH]; simpl; [constructor|].
  now apply sort_insert_sorted.
Qed.
End SortFacts.

Section MapFacts.
Variable V : Type.
Implicit Types (m : JsMap.t V) (k : jstring) (v : V).

Lemma JsMap_get_set_same m k v : JsMap.get k (JsMap.set k v m) = Some v.
Proof.
  induction m as [|[k' v'] m IH]; simpl.
  - now rewrite str_eqb_refl.
  - destruct (str_eqb k' k) eqn:E; simpl; rewrite E; auto.
Qed.

Lemma JsMap_get_set_other m k k' v :
  k' <> k -> JsMap.get k' (JsMap.set k v m) = JsMap.get k' m.
Proof.
  intros Hne. induction m as [|[k0 v0] m IH]; simpl.
  - assert (str_eqb k k' = false) as -> by (apply str_eqb_false; congruence).
    reflexivity.
  - destruct (str_eqb k0 k) eqn:E; simpl.
    + apply str_eqb_spec in E. subst k0.
      assert (str_eqb k k' = false) as -> by (apply str_eqb_false; congruence).
      reflexivity.
    + destruct (str_eqb k0 k'); auto.
Qed.

Lemma JsMap_keys_set m k v :
  JsMap.keys (JsMap.set k v m)
  = if JsMap.has k m then JsMap.keys m else JsMap.keys m ++ [k].
Proof.
  unfold JsMap.has, JsMap.keys.
  induction m as [|[k' v'] m IH]; simpl; [reflexivity|].
  destruct (str_eqb k' k) eqn:E; simpl; [reflexivity|].
  rewrite IH. destruct (JsMap.get k m); reflexivity.
Qed.

Lemma JsMap_has_In m k : JsMap.has k m = true <-> In k (JsMap.keys m).
Proof.
  unfold JsMap.has, JsMap.keys.
  induction m as [|[k' v'] m IH]; simpl; [split; [discriminate|tauto]|].
  destruct (str_eqb k' k) eqn:E.
  - apply str_eqb_spec in E. split; auto.
  - apply str_eqb_false in E. rewrite IH. split; [auto|intros [H|H]; congruence].
Qed.

Lemma JsMap_keys_set_NoDup m k v :
  NoDup (JsMap.keys m) -> NoDup (JsMap.keys (JsMap.set k v m)).
Proof.
  intros Hnd. rewrite JsMap_keys_set.
  destruct (JsMap.has k m) eqn:E; [exact Hnd|].
  apply NoDup_app; [exact Hnd|repeat constructor; simpl; tauto|].
  intros x Hx Hx'. destruct Hx' as [<-|[]].
  apply JsMap_has_In in Hx. congruence.
Qed.

Lemma JsMap_In_get m k v :
  NoDup (JsMap.keys m) -> (In (k, v) m <-> JsMap.get k m = Some v).
Proof.
  unfold JsMap.keys.
  induction m as [|[k' v'] m IH]; simpl; intros Hnd.
  - split; [tauto|discriminate].
  - inversion Hnd as [|? ? Hnotin Hnd']; subst.
    destruct (str_eqb k' k) eqn:E.
    + apply str_eqb_spec in E. subst k'. split.
      * intros [[= ->]|Hin]; [reflexivity|].
        exfalso. apply Hnotin. apply (in_map fst) in Hin. exact Hin.
      * intros [= ->]. now left.
    + apply str_eqb_false in E. rewrite <- IH by assumption. split.
      * intros [[= -> ->]|Hin]; [congruence|exact Hin].
      * auto.
Qed.
End MapFacts.

(* ================================================================= *)
(** ** The record model and the reconciliation layer *)

Lemma sameString_spec (a b : jstring) : sameString a b = true <-> a = b.
Proof.
  unfold sameString. destruct (list_eq_dec N.eq_dec a b); split; congruence.
Qed.

Lemma sameString_str_eqb (a b : jstring) : sameString a b = str_eqb a b.
Proof.
  destruct (str_eqb a b) eqn:E.
  - apply sameString_spec. now apply str_eqb_spec.
  - destruct (sameString a b) eqn:E'; [|reflexivity].
    apply sameString_spec, str_eqb_spec in E'. congruence.
Qed.

Section Facts.
Context {Num : JsNumber}.

Lemma normalizeExercise_label (e : Exercise) :
  normalizeExercise (VStr (label e)) = e.
Proof. destruct e; reflexivity. Qed.

Lemma EXERCISES_includes_label (e : Exercise) :
  EXERCISES_includes (VStr (label e)) = true.
Proof. destruct e; reflexivity. Qed.

Lemma In_EXERCISES (e : Exercise) : In e EXERCISES.
Proof. destruct e; simpl; tauto. Qed.

Lemma Exercise_eqb_spec (a b : Exercise) : Exercise_eqb a b = true <-> a = b.
Proof. destruct a, b; simpl; split; congruence. Qed.

(** [isLog] looks at the types of the fields only: every object of type
    [Log] passes, whatever its numbers and its date are. *)
Lemma isLog_Log_value (l : Log) : isLog (Log_value l) = true.
Proof.
  unfold isLog, Log_value. cbn.
  apply EXERCISES_includes_label.
Qed.

Lemma mergeLogs_step_set (m : JsMap.t Log) (l : Log) :
  mergeLogs_step m l = JsMap.set (id l) l m.
Proof. unfold mergeLogs_step. now rewrite isLog_Log_value. Qed.

Lemma keyedById_set (m : JsMap.t Log) (l : Log) :
  keyedById m -> keyedById (JsMap.set (id l) l m).
Proof.
  unfold keyedById. induction 1 as [|[k v] m Hk Hm IH]; simpl.
  - repeat constructor.
  - destruct (str_eqb k (id l)) eqn:E; constructor; auto.
    simpl. now apply str_eqb_spec in E.
Qed.

Lemma merge_fold_inv (ls : list Log) (m : JsMap.t Log) :
  keyedById m -> NoDup (JsMap.keys m) ->
  keyedById (fold_left mergeLogs_step ls m)
  /\ NoDup (JsMap.keys (fold_left mergeLogs_step ls m)).
Proof.
  revert m; induction ls as [|l t IH]; intros m Hk Hnd; simpl; [auto|].
  apply IH; rewrite mergeLogs_step_set.
  - now apply keyedById_set.
  - now apply JsMap_keys_set_NoDup.
Qed.

Lemma merge_fold_get (i : jstring) (ls : list Log) (m : JsMap.t Log) :
  JsMap.get i (fold_left mergeLogs_step ls m)
  = match lastWithId i ls with
    | Some l => Some l
    | None => JsMap.get i m
    end.
Proof.
  revert m; induction ls as [|l t IH]; intros m; simpl; [reflexivity|].
  rewrite IH, mergeLogs_step_set.
  destruct (lastWithId i t); [reflexivity|].
  destruct (str_eqb (id l) i) eqn:E.
  - apply str_eqb_spec in E. subst i. apply JsMap_get_set_same.
  - apply str_eqb_false in E. apply JsMap_get_set_other. congruence.
Qed.

Lemma keyed_values_ids (m : JsMap.t Log) :
  keyedById m -> map id (JsMap.values m) = JsMap.keys m.
Proof.
  unfold JsMap.values, JsMap.keys.
  induction 1 as [|[k v] m Hk Hm IH]; simpl; [reflexivity|].
  simpl in Hk. now rewrite IH, Hk.
Qed.

Lemma keyed_values_In (m : JsMap.t Log) (l : Log) :
  keyedById m -> NoDup (JsMap.keys m) ->
  (In l (JsMap.values m) <-> JsMap.get (id l) m = Some l).
Proof.
  intros Hk Hnd. rewrite <- JsMap_In_get by assumption.
  unfold JsMap.values. rewrite in_map_iff. split.
  - intros [[k v] [Hv Hin]]. simpl in Hv. subst v.
    unfold keyedById in Hk. rewrite Forall_forall in Hk.
    specialize (Hk _ Hin). simpl in Hk. now subst k.
  - intros Hin. now exists (id l, l).
Qed.

Lemma lastWithId_app (i : jstring) (a b : list Log) :
  lastWithId i (a ++ b)
  = match lastWithId i b with
    | Some x => Some x
    | None => lastWithId i a
    end.
Proof.
  induction a as [|l t IH]; simpl.
  - now destruct (lastWithId i b).
  - rewrite IH. now destruct (lastWithId i b).
Qed.

Lemma lastWithId_id (i : jstring) (ls : list Log) (l : Log) :
  lastWithId i ls = Some l -> id l = i /\ In l ls.
Proof.
  induction ls as [|x t IH]; simpl; [discriminate|].
  destruct (lastWithId i t) as [y|].
  - intros [= ->]. destruct (IH eq_refl). auto.
  - destruct (str_eqb (id x) i) eqn:E; [|discriminate].
    intros [= ->]. apply str_eqb_spec in E. auto.
Qed.

Lemma lastWithId_In (ls : list Log) (l : Log) :
  In l ls -> exists l', lastWithId (id l) ls = Some l'.
Proof.
  induction ls as [|x t IH]; simpl; [tauto|].
  intros [->|Hin].
  - destruct (lastWithId (id l) t); eauto. rewrite str_eqb_refl. eauto.
  - destruct (IH Hin) as [l' ->]. eauto.
Qed.

Lemma mergeLogs_In (prev incoming : list Log) (l : Log) :
  In l (mergeLogs prev incoming)
  <-> lastWithId (id l) (prev ++ incoming) = Some l.
Proof.
  unfold mergeLogs.
  destruct (merge_fold_inv (prev ++ incoming) (m := JsMap.empty Log))
    as [Hk Hnd]; [constructor|constructor|].
  split.
  - intros Hin. eapply Permutation_in in Hin; [|apply sort_by_perm].
    apply keyed_values_In in Hin; auto.
    rewrite merge_fold_get in Hin.
    destruct (lastWithId (id l) (prev ++ incoming)); [exact Hin|discriminate].
  - intros Hl. eapply Permutation_in; [symmetry; apply sort_by_perm|].
    apply keyed_values_In; auto.
    now rewrite merge_fold_get, Hl.
Qed.

Lemma byDateDesc_before (a b : Log) :
  (byDateDesc a b >? 0) = false <-> str_ltb (date a) (date b) = false.
Proof.
  unfold byDateDesc.
  destruct (str_ltb (date a) (date b)); [split; discriminate|].
  destruct (str_ltb (date b) (date a)); split; reflexivity.
Qed.

Lemma StronglySorted_impl (A : Type) (R R' : A -> A -> Prop) (l : list A) :
  (forall a b, R a b -> R' a b) -> StronglySorted R l -> StronglySorted R' l.
Proof.
  intros HR. induction 1 as [|x t Hs IH Hall]; constructor; auto.
  eapply Forall_impl; [|exact Hall]. auto.
Qed.

Lemma mergeLogs_sorted (prev incoming : list Log) :
  StronglySorted (fun a b => str_ltb (date a) (date b) = false)
                 (mergeLogs prev incoming).
Proof.
  unfold mergeLogs.
  eapply StronglySorted_impl; [|apply sort_by_sorted].
  - intros a b. apply byDateDesc_before.
  - intros a b Hab. apply byDateDesc_before.
    destruct (str_ltb (date a) (date b)) eqn:E.
    + now apply str_ltb_asym.
    + unfold byDateDesc in Hab. rewrite E in Hab.
      destruct (str_ltb (date b) (date a)); [discriminate|reflexivity].
  - intros a b c Hab Hbc. apply byDateDesc_before.
    apply byDateDesc_before in Hab, Hbc. eapply str_geb_trans; eauto.
Qed.

(** C3: [mergeLogs] keys the entries by identifier, the last write under an
    identifier wins, so an incoming entry replaces an existing entry that
    shares its identifier, and the result is sorted by date in descending
    string order. *)
Theorem mergeLogs_last_write_wins_sorted (prev incoming : list Log) :
  (forall l, In l (mergeLogs prev incoming)
             <-> lastWithId (id l) (prev ++ incoming) = Some l)
  /\ (forall l, In l incoming ->
        exists l', lastWithId (id l) incoming = Some l'
                   /\ In l' (mergeLogs prev incoming)
                   /\ forall x, In x (mergeLogs prev incoming) ->
                                id x = id l -> x = l')
  /\ StronglySorted (fun a b => str_ltb (date a) (date b) = false)
                    (mergeLogs prev incoming).
Proof.
  split; [apply mergeLogs_In|]. split; [|apply mergeLogs_sorted].
  intros l Hin. destruct (lastWithId_In _ _ Hin) as [l' Hl'].
  exists l'. split; [exact Hl'|].
  destruct (lastWithId_id _ _ Hl') as [Hid _].
  assert (Hlast : lastWithId (id l) (prev ++ incoming) = Some l')
    by (now rewrite lastWithId_app, Hl').
  split.
  - apply mergeLogs_In. now rewrite Hid.
  - intros x Hx Hxid. apply mergeLogs_In in Hx.
    rewrite Hxid, Hlast in Hx. congruence.
Qed.

(** C6: after a merge no two entries of the collection share an
    identifier. *)
Theorem mergeLogs_ids_distinct (prev incoming : list Log) :
  NoDup (map id (mergeLogs prev incoming)).
Proof.
  unfold mergeLogs.
  destruct (merge_fold_inv (prev ++ incoming) (m := JsMap.empty Log))
    as [Hk Hnd]; [constructor|constructor|].
  eapply Permutation_NoDup.
  - apply Permutation_map. symmetry. apply sort_by_perm.
  - now rewrite keyed_values_ids.
Qed.

(** ** The import handler *)


(** ** Personal records *)

Lemma Exercise_eqb_refl (e : Exercise) : Exercise_eqb e e = true.
Proof. now destruct e. Qed.

Lemma Exercise_eqb_sym (a b : Exercise) : Exercise_eqb a b = Exercise_eqb b a.
Proof. now destruct a, b. Qed.

(** The table the three [useMemo] loops build holds, for each exercise, the
    maximum the specification describes. *)
Lemma fold_bestStep (entries : list Log) (res : BestTable) (e : Exercise) :
  fold_left bestStep entries res e
  = fold_left (fun best w => if num_gt w best then w else best)
              (map weight (filter (fun l => Exercise_eqb (exercise l) e) entries))
              (res e).
Proof.
  revert res; induction entries as [|l t IH]; intros res; simpl; [reflexivity|].
  rewrite IH. unfold bestStep, bestSet.
  destruct (Exercise_eqb (exercise l) e) eqn:E; simpl.
  - apply Exercise_eqb_spec in E. subst e.
    destruct (num_gt (weight l) (res (exercise l))); [|reflexivity].
    now rewrite Exercise_eqb_refl.
  - destruct (num_gt (weight l) (res (exercise l))); [|reflexivity].
    now rewrite Exercise_eqb_sym, E.
Qed.

Lemma bestByExercise_spec (entries : list Log) (e : Exercise) :
  fold_left bestStep entries bestInit e = bestWeight_spec entries e.
Proof. apply fold_bestStep. Qed.

(** The value the specification calls the best weight is a maximum: no
    entry of the exercise is heavier, and it is 0 or the weight of one of
    them. *)
Lemma fold_max_bounds (ws : list number) (init : number) :
  let best := fold_left (fun b w => if num_gt w b then w else b) ws init in
  (best = init \/ num_lt init best = true)
  /\ (best = init \/ In best ws)
  /\ forall w, In w ws -> num_lt best w = false.
Proof.
  cbv zeta. revert init; induction ws as [|w ws IH]; intros init; cbn [fold_left].
  - repeat split; auto. intros w [].
  - specialize (IH (if num_gt w init then w else init)).
    remember (fold_left (fun b w0 => if num_gt w0 b then w0 else b) ws
                        (if num_gt w init then w else init)) as best eqn:Hbest.
    clear Hbest. unfold num_gt in IH.
    destruct (num_lt init w) eqn:E; destruct IH as (H1 & H2 & H3).
    + assert (Hib : num_lt init best = true).
      { destruct H1 as [H1|H1]; [now rewrite H1|].
        eapply num_lt_trans; eauto. }
      split; [now right|]. split.
      * right. destruct H2 as [H2|H2]; [left; now rewrite H2|now right].
      * intros w' [Hw|Hin]; [subst w'|auto].
        destruct H1 as [H1|H1]; [rewrite H1; apply num_lt_irrefl|].
        destruct (num_lt best w) eqn:E'; [|reflexivity].
        pose proof (num_lt_trans _ _ _ H1 E') as Hww.
        now rewrite num_lt_irrefl in Hww.
    + split; [exact H1|]. split.
      * destruct H2 as [H2|H2]; [now left|right; now right].
      * intros w' [Hw|Hin]; [subst w'|auto].
        destruct H1 as [H1|H1]; [now rewrite H1|].
        destruct (num_lt best w) eqn:E'; [|reflexivity].
        pose proof (num_lt_trans _ _ _ H1 E') as Hww. congruence.
Qed.

Lemma bestWeight_spec_is_max (entries : list Log) (e : Exercise) :
  (forall l, In l entries -> exercise l = e ->
             num_gt (weight l) (bestWeight_spec entries e) = false)
  /\ (bestWeight_spec entries e = zero
      \/ exists l, In l entries /\ exercise l = e
                   /\ weight l = bestWeight_spec entries e).
Proof.
  unfold bestWeight_spec.
  destruct (fold_max_bounds
              (map weight (filter (fun l => Exercise_eqb (exercise l) e) entries))
              zero) as (_ & H2 & H3).
  cbv zeta in H2, H3. split.
  - intros l Hin He. apply H3. apply in_map. apply filter_In.
    split; [exact Hin|]. now apply Exercise_eqb_spec.
  - destruct H2 as [H2|H2]; [now left|right].
    apply in_map_iff in H2 as (l & Hw & Hl). apply filter_In in Hl as [Hin He].
    exists l. repeat split; auto. now apply Exercise_eqb_spec.
Qed.

Lemma entriesOnDate_logsForDate (logs : list Log) (ds : jstring) :
  entriesOnDate logs ds = logsForDate logs ds.
Proof.
  unfold entriesOnDate, logsForDate. apply filter_ext.
  intros l. apply sameString_str_eqb.
Qed.

Lemma entriesOnOtherDates_filter (logs : list Log) (ds : jstring) :
  entriesOnOtherDates logs ds
  = filter (fun l => negb (str_eqb (date l) ds)) logs.
Proof.
  unfold entriesOnOtherDates. apply filter_ext.
  intros l. now rewrite sameString_str_eqb.
Qed.

Lemma entriesOnDate_In (logs : list Log) (ds : jstring) (l : Log) :
  In l (entriesOnDate logs ds) <-> In l logs /\ date l = ds.
Proof.
  unfold entriesOnDate. rewrite filter_In, sameString_spec. reflexivity.
Qed.

Lemma entriesOnOtherDates_In (logs : list Log) (ds : jstring) (l : Log) :
  In l (entriesOnOtherDates logs ds) <-> In l logs /\ date l <> ds.
Proof.
  unfold entriesOnOtherDates. rewrite filter_In, negb_true_iff.
  split; intros [H1 H2]; (split; [exact H1|]).
  - intros E. apply sameString_spec in E. congruence.
  - destruct (sameString (date l) ds) eqn:E; [|reflexivity].
    apply sameString_spec in E. contradiction.
Qed.

(** C4: an exercise is flagged as a personal record exactly when its best
    weight among the entries on the selected date is greater than 0 and
    strictly greater than its best weight among the entries on every other
    date; equal bests are not flagged.  The two selections are the
    specification's own: the entries of the collection whose date is the
    selected one, and those whose date is another.  A flagged exercise has
    an entry of that best weight on the selected date, and no entry of it
    on another date is as heavy or heavier; conversely, where numbers that
    are not [NaN] are comparable, an entry of the exercise on the selected
    date that is heavier than 0, as heavy as any of that date and heavier
    than every one of another date makes the exercise flagged. *)
Theorem prSet_iff_strict_best (logs : list Log) (dateStr : jstring) (ex : Exercise) :
  let today := bestWeight_spec (entriesOnDate logs dateStr) ex in
  let others := bestWeight_spec (entriesOnOtherDates logs dateStr) ex in
  (forall l, In l (entriesOnDate logs dateStr) <-> In l logs /\ date l = dateStr)
  /\ (forall l, In l (entriesOnOtherDates logs dateStr)
                <-> In l logs /\ date l <> dateStr)
  /\ (In ex (prSet logs dateStr)
      <-> num_gt today zero = true /\ num_gt today others = true)
  /\ (today = others -> ~ In ex (prSet logs dateStr))
  /\ (In ex (prSet logs dateStr) ->
      (exists l, In l logs /\ date l = dateStr /\ exercise l = ex
                 /\ weight l = today)
      /\ forall l', In l' logs -> date l' <> dateStr -> exercise l' = ex ->
                    num_gt (weight l') today = false /\ weight l' <> today)
  /\ ((forall x y, num_isNaN x = false -> num_isNaN y = false ->
                   num_lt x y = true \/ x = y \/ num_lt y x = true) ->
      forall l, In l logs -> date l = dateStr -> exercise l = ex ->
        num_gt (weight l) zero = true ->
        (forall l', In l' logs -> date l' = dateStr -> exercise l' = ex ->
                    num_gt (weight l') (weight l) = false) ->
        (forall l', In l' logs -> date l' <> dateStr -> exercise l' = ex ->
                    num_gt (weight l') (weight l) = false
                    /\ weight l' <> weight l) ->
        In ex (prSet logs dateStr)).
Proof.
  intros today others.
  assert (Hiff : In ex (prSet logs dateStr)
                 <-> num_gt today zero = true /\ num_gt today others = true).
  { unfold prSet. rewrite filter_In, andb_true_iff.
    unfold todayBestByExercise, prevBestByExercise.
    rewrite !bestByExercise_spec.
    rewrite <- entriesOnDate_logsForDate, <- entriesOnOtherDates_filter.
    fold today others.
    pose proof (In_EXERCISES ex). tauto. }
  destruct (bestWeight_spec_is_max (entriesOnDate logs dateStr) ex)
    as [Hmax_t Hatt_t].
  destruct (bestWeight_spec_is_max (entriesOnOtherDates logs dateStr) ex)
    as [Hmax_o Hatt_o].
  fold today in Hmax_t, Hatt_t. fold others in Hmax_o, Hatt_o.
  split; [apply entriesOnDate_In|]. split; [apply entriesOnOtherDates_In|].
  split; [exact Hiff|]. split; [|split].
  - intros Heq Hin. apply Hiff in Hin as [_ Hgt].
    rewrite Heq in Hgt. unfold num_gt in Hgt.
    now rewrite num_lt_irrefl in Hgt.
  - intros Hin. apply Hiff in Hin as [Hpos Hgt]. unfold num_gt in Hpos, Hgt.
    split.
    + destruct Hatt_t as [Hz|(l & Hl & He & Hw)].
      * rewrite Hz in Hpos. now rewrite num_lt_irrefl in Hpos.
      * apply entriesOnDate_In in Hl as [Hl Hd]. exists l. auto.
    + intros l' Hl' Hd He.
      assert (Hno : num_lt others (weight l') = false).
      { apply (Hmax_o l'); [|exact He]. now apply entriesOnOtherDates_In. }
      split.
      * unfold num_gt. destruct (num_lt today (weight l')) eqn:E; [|reflexivity].
        pose proof (num_lt_trans _ _ _ Hgt E). congruence.
      * intros Heq. rewrite Heq in Hno. congruence.
  - intros Htri l Hl Hd He Hpos Hbest Hprev.
    unfold num_gt in Hpos.
    assert (Hlt : num_lt today (weight l) = false).
    { apply (Hmax_t l); [|exact He]. now apply entriesOnDate_In. }
    assert (Hnz : today <> zero).
    { intros E. rewrite E in Hlt. congruence. }
    destruct Hatt_t as [Hz|(l2 & Hl2 & He2 & Hw2)]; [contradiction|].
    apply entriesOnDate_In in Hl2 as [Hl2 Hd2].
    assert (Hgt2 : num_lt (weight l) today = false).
    { rewrite <- Hw2. apply (Hbest l2 Hl2 Hd2 He2). }
    assert (Htoday : today = weight l).
    { destruct (num_isNaN today) eqn:En.
      - (* today is attained and compared with l: either order or equal *)
        exfalso.
        destruct (fold_max_bounds
                    (map weight (filter (fun x => Exercise_eqb (exercise x) ex)
                                        (entriesOnDate logs dateStr))) zero)
          as (H1 & _ & _). cbv zeta in H1.
        change (fold_left (fun b w => if num_gt w b then w else b)
                  (map weight (filter (fun x => Exercise_eqb (exercise x) ex)
                                      (entriesOnDate logs dateStr))) zero)
          with today in H1.
        destruct H1 as [H1|H1]; [contradiction|].
        apply num_pos_notNaN in H1. congruence.
      - destruct (Htri today (weight l) En (num_pos_notNaN _ Hpos))
          as [H|[H|H]]; congruence. }
    apply Hiff. rewrite Htoday. unfold num_gt. split; [exact Hpos|].
    destruct Hatt_o as [Hz|(l' & Hl' & He' & Hw')].
    + rewrite Hz. exact Hpos.
    + apply entriesOnOtherDates_In in Hl' as [Hl' Hd'].
      destruct (Hprev l' Hl' Hd' He') as [Hng Hne].
      unfold num_gt in Hng.
      destruct (fold_max_bounds
                  (map weight (filter (fun x => Exercise_eqb (exercise x) ex)
                                      (entriesOnOtherDates logs dateStr))) zero)
        as (H1 & _ & _). cbv zeta in H1.
      change (fold_left (fun b w => if num_gt w b then w else b)
                (map weight (filter (fun x => Exercise_eqb (exercise x) ex)
                                    (entriesOnOtherDates logs dateStr))) zero)
        with others in H1.
      destruct H1 as [H1|H1]; [rewrite H1; exact Hpos|].
      apply num_pos_notNaN in H1. rewrite <- Hw' in H1 |- *.
      destruct (Htri (weight l') (weight l) H1 (num_pos_notNaN _ Hpos))
        as [H|[H|H]]; [exact H|contradiction|congruence].
Qed.

(** ** JSON export and import *)






Lemma filter_isLog (ls : list Log) :
  filter (fun l => isLog (Log_value l)) ls = ls.
Proof.
  induction ls as [|l t IH]; simpl; [reflexivity|].
  now rewrite isLog_Log_value, IH.
Qed.






End Facts.

(* ================================================================= *)
(** ** Calendar dates *)

Lemma daysInMonth_bounds (y : Z) (m : N) : (28 <= daysInMonth y m <= 31)%N.
Proof.
  unfold daysInMonth.
  repeat match goal with
         | |- context [match ?x with _ => _ end] => destruct x
         end; lia.
Qed.

Lemma prevDay_valid (d : JsDate) :
  validDate d -> validDate (prevDay d) /\ dateRank (prevDay d) < dateRank d.
Proof.
  destruct d as [y m dd]. unfold validDate, prevDay, dateRank; simpl.
  intros [Hm Hd].
  pose proof (daysInMonth_bounds y (m - 1)) as Hb.
  destruct (N.ltb_spec 1 dd); simpl.
  - repeat split; lia.
  - destruct (N.ltb_spec 0 m); simpl.
    + repeat split; lia.
    + repeat split; try lia. 
Qed.

Lemma pad2_small (n : N) :
  (n <= 31)%N -> pad2 n = [48 + n / 10; 48 + n mod 10]%N.
Proof.
  intros H.
  assert (Hin : In n (map N.of_nat (seq 0 32))).
  { apply in_map_iff. exists (N.to_nat n). split; [lia|]. apply in_seq. lia. }
  simpl in Hin.
  repeat (destruct Hin as [<-|Hin]; [reflexivity|]). destruct Hin.
Qed.

Lemma daysBefore_S (i : nat) (d : JsDate) :
  daysBefore (S i) d = prevDay (daysBefore i d).
Proof.
  revert d; induction i as [|i IH]; intros d; [reflexivity|].
  change (daysBefore (S (S i)) d) with (daysBefore (S i) (prevDay d)).
  rewrite IH. reflexivity.
Qed.

Lemma daysBefore_valid (i : nat) (d : JsDate) :
  validDate d ->
  validDate (daysBefore i d) /\ dateRank (daysBefore i d) <= dateRank d - Z.of_nat i.
Proof.
  intros Hd. induction i as [|i [IH1 IH2]].
  - simpl. split; [exact Hd|lia].
  - rewrite daysBefore_S. destruct (prevDay_valid IH1) as [H1 H2].
    split; [exact H1|lia].
Qed.

Lemma daysBefore_rank_lt (i j : nat) (d : JsDate) :
  validDate d -> (i < j)%nat ->
  dateRank (daysBefore j d) < dateRank (daysBefore i d).
Proof.
  intros Hd Hij. induction Hij as [|j Hij IH].
  - rewrite daysBefore_S.
    apply prevDay_valid. now apply daysBefore_valid.
  - rewrite daysBefore_S.
    assert (Hv : validDate (daysBefore j d)) by now apply daysBefore_valid.
    apply prevDay_valid in Hv. lia.
Qed.

Lemma app_inj_same_length (A : Type) (a b s t : list A) :
  length s = length t -> a ++ s = b ++ t -> a = b /\ s = t.
Proof.
  intros Hlen. revert b; induction a as [|x a IH]; intros [|y b] H; simpl in *.
  - auto.
  - exfalso. subst s. rewrite length_cons, length_app in Hlen. lia.
  - exfalso. subst t. rewrite length_cons, length_app in Hlen. lia.
  - injection H as -> H. destruct (IH _ H) as [-> ->]. auto.
Qed.

Lemma cons_inj (A : Type) (x y : A) (l l' : list A) :
  x :: l = y :: l' -> x = y /\ l = l'.
Proof. intros [= -> ->]. auto. Qed.

Lemma formatDate_inj (a b : JsDate) :
  validDate a -> validDate b -> formatDate a = formatDate b -> a = b.
Proof.
  destruct a as [y m d], b as [y' m' d'].
  unfold validDate, formatDate; simpl. intros [Hm Hd] [Hm' Hd'].
  pose proof (daysInMonth_bounds y m) as Hb.
  pose proof (daysInMonth_bounds y' m') as Hb'.
  rewrite !pad2_small by lia.
  intros H. apply app_inj_same_length in H as [Hy H]; [|reflexivity].
  apply decimalZ_inj in Hy.
  apply cons_inj in H as [_ H].
  apply cons_inj in H as [H1 H]. apply cons_inj in H as [H2 H].
  apply cons_inj in H as [_ H].
  apply cons_inj in H as [H3 H]. apply cons_inj in H as [H4 _].
  apply N.add_cancel_l in H1, H2, H3, H4.
  f_equal; [exact Hy| |].
  - apply (N.add_cancel_r _ _ 1).
    rewrite (N.div_mod (m + 1) 10), (N.div_mod (m' + 1) 10) by discriminate.
    now rewrite H1, H2.
  - rewrite (N.div_mod d 10), (N.div_mod d' 10) by discriminate.
    now rewrite H3, H4.
Qed.

(** ** The daily-volume series *)

Section DashboardFacts.
Context {Num : JsNumber}.

Lemma window_NoDup (today : JsDate) : validDate today -> NoDup (window today).
Proof.
  intros Hv. unfold window.
  apply NoDup_map_NoDup_ForallPairs.
  - intros i j _ _ H.
    apply formatDate_inj in H; try now apply daysBefore_valid.
    destruct (Nat.lt_trichotomy i j) as [Hlt|[Heq|Hlt]]; [|exact Heq|];
      apply (daysBefore_rank_lt Hv) in Hlt; rewrite H in Hlt; lia.
  - apply NoDup_rev, seq_NoDup.
Qed.

Lemma window_length (today : JsDate) : length (window today) = 30%nat.
Proof. reflexivity. Qed.

Lemma JsMap_set_new (V : Type) (m : JsMap.t V) (k : jstring) (v : V) :
  ~ In k (JsMap.keys m) -> JsMap.set k v m = m ++ [(k, v)].
Proof.
  unfold JsMap.keys. induction m as [|[k' v'] m IH]; simpl; intros H; [reflexivity|].
  destruct (str_eqb k' k) eqn:E.
  - apply str_eqb_spec in E. tauto.
  - rewrite IH; tauto.
Qed.

Lemma init_fold (A : Type) (f : A -> jstring) (offs : list A) (m0 : JsMap.t number) :
  NoDup (JsMap.keys m0 ++ map f offs) ->
  fold_left (fun m i => JsMap.set (f i) zero m) offs m0
  = m0 ++ map (fun i => (f i, zero)) offs.
Proof.
  revert m0; induction offs as [|i t IH]; intros m0 Hnd; simpl.
  - now rewrite app_nil_r.
  - assert (Hnew : ~ In (f i) (JsMap.keys m0)).
    { intros Hin. apply NoDup_app_remove_r in Hnd as Hnd'.
      simpl in Hnd. apply NoDup_remove_2 in Hnd. apply Hnd.
      apply in_or_app. now left. }
    rewrite JsMap_set_new by exact Hnew. rewrite IH.
    + now rewrite <- app_assoc.
    + unfold JsMap.keys in *. rewrite map_app. simpl.
      rewrite <- app_assoc. exact Hnd.
Qed.

Lemma dailyData_init_eq (today : JsDate) :
  validDate today ->
  dailyData_init today = map (fun ds => (ds, zero)) (window today).
Proof.
  intros Hv. unfold dailyData_init.
  rewrite init_fold.
  - unfold window. rewrite map_map. reflexivity.
  - change (NoDup (window today)). exact (window_NoDup Hv).
Qed.

Lemma step_keys (m : JsMap.t number) (l : Log) :
  JsMap.keys (dailyData_step m l) = JsMap.keys m.
Proof.
  unfold dailyData_step. destruct (JsMap.has (date l) m) eqn:E; [|reflexivity].
  now rewrite JsMap_keys_set, E.
Qed.

Lemma fold_keys (logs : list Log) (m : JsMap.t number) :
  JsMap.keys (fold_left dailyData_step logs m) = JsMap.keys m.
Proof.
  revert m; induction logs as [|l t IH]; intros m; simpl; [reflexivity|].
  now rewrite IH, step_keys.
Qed.

Lemma fold_get (logs : list Log) (m : JsMap.t number) (ds : jstring) (v0 : number) :
  JsMap.get ds m = Some v0 ->
  JsMap.get ds (fold_left dailyData_step logs m)
  = Some (fold_left
            (fun acc l => num_add (num_or_zero acc) (num_mul (weight l) (reps l)))
            (filter (fun l => str_eqb (date l) ds) logs) v0).
Proof.
  revert m v0; induction logs as [|l t IH]; intros m v0 Hget; simpl; [exact Hget|].
  destruct (str_eqb (date l) ds) eqn:E; simpl.
  - apply str_eqb_spec in E. apply IH.
    unfold dailyData_step, JsMap.has. rewrite E, Hget.
    apply JsMap_get_set_same.
  - apply IH. unfold dailyData_step.
    destruct (JsMap.has (date l) m); [|exact Hget].
    rewrite JsMap_get_set_other; [exact Hget|].
    apply str_eqb_false in E. congruence.
Qed.

Lemma JsMap_by_keys (V : Type) (d : V) (m : JsMap.t V) :
  NoDup (JsMap.keys m) ->
  m = map (fun k => (k, match JsMap.get k m with Some v => v | None => d end))
          (JsMap.keys m).
Proof.
  unfold JsMap.keys. induction m as [|[k v] m IH]; simpl; intros Hnd; [reflexivity|].
  inversion Hnd as [|? ? Hnotin Hnd']; subst.
  rewrite str_eqb_refl. f_equal.
  rewrite (IH Hnd') at 1. apply map_ext_in. intros k' Hin.
  destruct (str_eqb k k') eqn:E; [|reflexivity].
  apply str_eqb_spec in E. subst. contradiction.
Qed.

Lemma get_const_map (ks : list jstring) (k : jstring) (v : number) :
  In k ks -> JsMap.get k (map (fun ds => (ds, v)) ks) = Some v.
Proof.
  induction ks as [|k' t IH]; simpl; [tauto|].
  intros [->|Hin]; [now rewrite str_eqb_refl|].
  destruct (str_eqb k' k); auto.
Qed.

Lemma keys_const_map (ks : list jstring) (v : number) :
  JsMap.keys (map (fun ds => (ds, v)) ks) = ks.
Proof.
  unfold JsMap.keys. rewrite map_map. apply map_id.
Qed.

Lemma dailyData_closed_form (today : JsDate) (logs : list Log) :
  validDate today ->
  dailyData today logs = map (fun ds => (ds, dayVolume logs ds)) (window today).
Proof.
  intros Hv. unfold dailyData, JsMap.entries.
  set (m := fold_left dailyData_step logs (dailyData_init today)).
  assert (Hkeys : JsMap.keys m = window today).
  { unfold m. rewrite fold_keys, dailyData_init_eq by assumption.
    apply keys_const_map. }
  rewrite (JsMap_by_keys zero m) by (rewrite Hkeys; now apply window_NoDup).
  rewrite Hkeys. apply map_ext_in. intros ds Hin. f_equal.
  unfold m. erewrite fold_get; [reflexivity|].
  rewrite dailyData_init_eq by assumption. now apply get_const_map.
Qed.

Lemma dayVolume_volume (entries : list Log) (ds : jstring) :
  (forall k, num_isNaN (volume (firstn k (logsForDate entries ds))) = false) ->
  dayVolume entries ds = volume (logsForDate entries ds).
Proof.
  unfold dayVolume, logsForDate.
  generalize (filter (fun l => str_eqb (date l) ds) entries). clear entries.
  intros es. induction es as [|l es IH] using rev_ind; intros H; [reflexivity|].
  unfold volume in *. rewrite !fold_left_app. simpl.
  rewrite IH.
  - f_equal. unfold num_or_zero.
    destruct (num_toBoolean _) eqn:E; [reflexivity|].
    apply num_falsy in E as [E|E]; [now rewrite E|].
    specialize (H (length es)). rewrite firstn_app, firstn_all, Nat.sub_diag in H.
    cbn [firstn] in H. rewrite app_nil_r in H. congruence.
  - intros k. destruct (Nat.le_gt_cases k (length es)) as [Hk|Hk].
    + specialize (H k). rewrite firstn_app in H.
      replace (k - length es)%nat with 0%nat in H by lia.
      cbn [firstn] in H. now rewrite app_nil_r in H.
    + rewrite firstn_all2 by lia. specialize (H (length es)).
      rewrite firstn_app, firstn_all, Nat.sub_diag in H.
      cbn [firstn] in H. now rewrite app_nil_r in H.
Qed.

Lemma dayVolume_snoc (logs : list Log) (l : Log) (ds : jstring) :
  dayVolume (logs ++ [l]) ds
  = if str_eqb (date l) ds
    then num_add (num_or_zero (dayVolume logs ds)) (num_mul (weight l) (reps l))
    else dayVolume logs ds.
Proof.
  unfold dayVolume. rewrite filter_app. cbn [filter].
  destruct (str_eqb (date l) ds).
  - now rewrite fold_left_app.
  - now rewrite app_nil_r.
Qed.

Lemma dayVolume_skip (a b : list Log) (l : Log) (ds : jstring) :
  date l <> ds -> dayVolume (a ++ l :: b) ds = dayVolume (a ++ b) ds.
Proof.
  intros Hne. unfold dayVolume. rewrite !filter_app. cbn [filter].
  apply str_eqb_false in Hne. now rewrite Hne.
Qed.

Lemma sumProducts_volume (es : list Log) : sumProducts es = volume es.
Proof.
  unfold sumProducts, volume. generalize zero.
  induction es as [|l t IH]; intros acc; [reflexivity|].
  cbn [map fold_left]. apply IH.
Qed.

Lemma num_or_zero_id (x : number) : num_isNaN x = false -> num_or_zero x = x.
Proof.
  intros Hx. unfold num_or_zero.
  destruct (num_toBoolean x) eqn:E; [reflexivity|].
  apply num_falsy in E as [E|E]; [now rewrite E|congruence].
Qed.

Lemma dayVolume_dayTotal (entries : list Log) (ds : jstring) :
  (forall k, num_isNaN (sumProducts (firstn k (entriesOnDate entries ds))) = false) ->
  dayVolume entries ds = dayTotal_spec entries ds.
Proof.
  intros H. unfold dayTotal_spec.
  rewrite sumProducts_volume, entriesOnDate_logsForDate.
  apply dayVolume_volume. intros k.
  rewrite <- sumProducts_volume, <- entriesOnDate_logsForDate. apply H.
Qed.

Lemma window_nth (today : JsDate) (i : nat) :
  (i < 30)%nat ->
  nth_error (window today) i = Some (formatDate (daysBefore (29 - i) today)).
Proof.
  intros Hi. unfold window. rewrite nth_error_map.
  assert (E : nth_error windowOffsets i = Some (29 - i)%nat).
  { do 30 (destruct i as [|i]; [reflexivity|]). lia. }
  now rewrite E.
Qed.

(** C7, amended: whatever the entries are, the series has one point for
    each of the 30 calendar dates that end today, oldest first; with no
    entry every point is 0; an entry dated outside the window changes
    nothing; an entry adds weight times reps to the total of its own date
    and to no other whenever that total is a number; and as long as no
    running total of a date is [NaN], every point is the sum of weight
    times reps over the entries of its date. *)
Theorem dailyData_series (today : JsDate) (logs : list Log) :
  validDate today ->
  length (dailyData today logs) = 30%nat
  /\ map fst (dailyData today logs) = window today
  /\ (forall i, (i < 30)%nat ->
        nth_error (map fst (dailyData today logs)) i
        = Some (formatDate (daysBefore (29 - i) today)))
  /\ dailyData today [] = map (fun ds => (ds, zero)) (window today)
  /\ (forall a l b, logs = a ++ l :: b -> ~ In (date l) (window today) ->
        dailyData today logs = dailyData today (a ++ b))
  /\ (forall l,
        (forall v, In (date l, v) (dailyData today logs) -> num_isNaN v = false) ->
        dailyData today (logs ++ [l])
        = map (fun dv =>
                 if sameString (date l) (fst dv)
                 then (fst dv, num_add (snd dv) (num_mul (weight l) (reps l)))
                 else dv)
              (dailyData today logs))
  /\ ((forall ds k, In ds (window today) ->
         num_isNaN (sumProducts (firstn k (entriesOnDate logs ds))) = false) ->
      dailyData today logs
      = map (fun ds => (ds, dayTotal_spec logs ds)) (window today)).
Proof.
  intros Hv.
  pose proof (fun ls => dailyData_closed_form ls Hv) as Hcf.
  split; [now rewrite Hcf, length_map|].
  assert (Hdates : map fst (dailyData today logs) = window today)
    by (rewrite Hcf, map_map; apply map_id).
  split; [exact Hdates|].
  split; [intros i Hi; rewrite Hdates; now apply window_nth|].
  split; [now rewrite Hcf|].
  split; [|split].
  - intros a l b -> Hout. rewrite !Hcf. apply map_ext_in. intros ds Hin.
    f_equal. apply dayVolume_skip. congruence.
  - intros l Hnum. rewrite !Hcf, map_map. apply map_ext_in. intros ds Hin.
    cbn [fst snd]. rewrite dayVolume_snoc, sameString_str_eqb.
    destruct (str_eqb (date l) ds) eqn:E; [|reflexivity].
    apply str_eqb_spec in E. rewrite num_or_zero_id; [reflexivity|].
    apply Hnum. rewrite Hcf, E. apply in_map_iff. now exists ds.
  - intros Hnum. rewrite Hcf. apply map_ext_in. intros ds Hin.
    f_equal. apply dayVolume_dayTotal. intros k. now apply Hnum.
Qed.

End DashboardFacts.

(* ================================================================= *)
(** ** The CSV reader *)

Lemma list_ind2 (A : Type) (P : list A -> Prop) :
  P [] -> (forall x, P [x]) ->
  (forall x y l, P l -> P (y :: l) -> P (x :: y :: l)) ->
  forall l, P l.
Proof.
  intros H0 H1 H2 l.
  assert (H : P l /\ forall x, P (x :: l)).
  { induction l as [|y l [IH1 IH2]]; split; auto. }
  apply H.
Qed.

Lemma normalizeNewlines_cons2 (x y : char) (l : jstring) :
  normalizeNewlines (x :: y :: l)
  = if N.eqb x CR
    then if N.eqb y LF then LF :: normalizeNewlines l
         else LF :: normalizeNewlines (y :: l)
    else x :: normalizeNewlines (y :: l).
Proof. reflexivity. Qed.

Lemma normalizeNewlines_keeps (c : char) (s : jstring) :
  c <> CR -> In c s -> In c (normalizeNewlines s).
Proof.
  intros Hc. induction s as [|x|x y l IH1 IH2] using list_ind2.
  - tauto.
  - simpl. destruct (N.eqb_spec x CR); simpl; intros [Heq|[]]; [congruence|tauto].
  - intros Hin. rewrite normalizeNewlines_cons2.
    destruct (N.eqb_spec x CR) as [Hx|Hx].
    + destruct Hin as [Heq|Hin]; [congruence|].
      destruct (N.eqb_spec y LF) as [Hy|Hy].
      * destruct Hin as [Heq|Hin]; [left; congruence|right; auto].
      * right. auto.
    + destruct Hin as [Heq|Hin]; [now left|right; auto].
Qed.

Lemma normalizeNewlines_breaks (s : jstring) :
  Forall (fun c => c = LF \/ c = CR) s ->
  Forall (fun c => c = LF) (normalizeNewlines s).
Proof.
  induction s as [|x|x y l IH1 IH2] using list_ind2; intros H.
  - constructor.
  - inversion H as [|? ? [Hx|Hx] _]; subst; simpl; repeat constructor.
  - rewrite normalizeNewlines_cons2.
    inversion H as [|? ? Hx H']; subst. inversion H' as [|? ? Hy H'']; subst.
    destruct (N.eqb_spec x CR) as [Hx'|Hx'].
    + destruct (N.eqb_spec y LF); constructor; auto.
    + constructor; auto. destruct Hx; congruence.
Qed.

Lemma str_split_nonnil (sep : char) (s : jstring) : str_split sep s <> [].
Proof.
  destruct s as [|c s]; simpl; [discriminate|].
  destruct (N.eqb c sep); [discriminate|].
  destruct (str_split sep s); discriminate.
Qed.

Lemma str_split_content (sep c : char) (s : jstring) :
  In c s -> c <> sep -> exists p, In p (str_split sep s) /\ p <> [].
Proof.
  intros Hin Hc. induction s as [|x s IH]; [destruct Hin|].
  simpl. destruct (N.eqb_spec x sep) as [Hx|Hx].
  - destruct Hin as [Heq|Hin]; [congruence|].
    destruct (IH Hin) as (p & Hp & Hne). exists p. simpl. auto.
  - destruct (str_split sep s) as [|p ps] eqn:E.
    + exists [x]. simpl. split; [auto|discriminate].
    + exists (x :: p). simpl. split; [auto|discriminate].
Qed.

Lemma str_split_breaks (sep : char) (s : jstring) :
  Forall (fun c => c = sep) s -> Forall (fun p => p = []) (str_split sep s).
Proof.
  induction 1 as [|x s Hx Hs IH]; simpl; [repeat constructor|].
  subst x. rewrite N.eqb_refl. constructor; auto.
Qed.

Lemma csvLines_nonEmpty (text : jstring) :
  Forall (fun l => l <> []) (csvLines text).
Proof.
  unfold csvLines. apply Forall_forall. intros l Hin.
  apply filter_In in Hin as [_ H]. now destruct l.
Qed.

Lemma csvLines_content (text : jstring) :
  (exists c, In c text /\ c <> LF /\ c <> CR) -> csvLines text <> [].
Proof.
  intros (c & Hin & Hlf & Hcr).
  apply normalizeNewlines_keeps in Hin; [|exact Hcr].
  destruct (@str_split_content LF c _ Hin Hlf) as (p & Hp & Hne).
  unfold csvLines. intros E.
  assert (Hp' : In p (filter nonEmpty (str_split LF (normalizeNewlines text)))).
  { apply filter_In. split; [exact Hp|]. now destruct p. }
  rewrite E in Hp'. destruct Hp'.
Qed.

Lemma csvLines_breaks (text : jstring) :
  Forall (fun c => c = LF \/ c = CR) text -> csvLines text = [].
Proof.
  intros H. apply normalizeNewlines_breaks in H. apply str_split_breaks in H.
  unfold csvLines. induction H as [|p ps Hp Hps IH]; simpl; [reflexivity|].
  now subst p.
Qed.

(** X2: [parseCSV] raises exactly on a text with no character other than
    line breaks. *)
Theorem parseCSV_throws_iff (text : jstring) :
  parseCSV text = Throw TypeError <-> Forall (fun c => c = LF \/ c = CR) text.
Proof.
  unfold parseCSV. split.
  - intros H. apply Forall_forall. intros c Hin.
    destruct (N.eq_dec c LF) as [|Hlf]; [now left|].
    destruct (N.eq_dec c CR) as [|Hcr]; [now right|].
    exfalso. apply (@csvLines_content text); [now exists c|].
    destruct (csvLines text); [reflexivity|discriminate].
  - intros H. now rewrite csvLines_breaks.
Qed.

Lemma cell_missing (row : list jstring) (i : Z) :
  i < 0 \/ Z.of_nat (length row) <= i -> cell row i = [].
Proof.
  unfold cell, at_index. intros [H|H].
  - apply Z.ltb_lt in H. now rewrite H.
  - destruct (i <? 0); [reflexivity|].
    assert (E : nth_error row (Z.to_nat i) = None) by (apply nth_error_None; lia).
    now rewrite E.
Qed.

Lemma findIndex_from_absent (name : jstring) (header : list jstring) (i : Z) :
  ~ In name header -> findIndex_from i name header = -1.
Proof.
  revert i; induction header as [|h t IH]; intros i Hn; simpl; [reflexivity|].
  destruct (str_eqb h name) eqn:E.
  - apply str_eqb_spec in E. exfalso. apply Hn. now left.
  - apply IH. intros Hin. apply Hn. now right.
Qed.

Lemma csvLines_pieces (s : jstring) :
  exists p ps ps',
    str_split LF (normalizeNewlines s) = p :: ps
    /\ splitBreaks s = p :: ps'
    /\ filter nonEmpty ps = filter nonEmpty ps'.
Proof.
  induction s as [|x|x y l IH1 IH2] using list_ind2.
  - exists [], [], []. repeat split.
  - cbn [normalizeNewlines splitBreaks]. unfold isBreak.
    destruct (N.eqb_spec x CR) as [->|Hcr].
    + exists [], [[]], [[]]. repeat split.
    + destruct (N.eqb_spec x LF) as [->|Hlf].
      * exists [], [[]], [[]]. repeat split.
      * exists [x], [], []. cbn [str_split orb].
        apply N.eqb_neq in Hlf. rewrite Hlf. repeat split.
  - destruct IH1 as (p1 & ps1 & ps1' & E1 & F1 & G1).
    destruct IH2 as (p2 & ps2 & ps2' & E2 & F2 & G2).
    rewrite normalizeNewlines_cons2.
    destruct (N.eqb_spec x CR) as [->|Hcr].
    + destruct (N.eqb_spec y LF) as [->|Hlf].
      * exists [], (p1 :: ps1), ([] :: p1 :: ps1').
        split; [cbn [str_split]; now rewrite N.eqb_refl, E1|].
        split; [change (splitBreaks (CR :: LF :: l))
                  with ([] :: [] :: splitBreaks l); now rewrite F1|].
        cbn [filter nonEmpty]. now rewrite G1.
      * exists [], (p2 :: ps2), (p2 :: ps2').
        split; [cbn [str_split]; now rewrite N.eqb_refl, E2|].
        split; [change (splitBreaks (CR :: y :: l))
                  with ([] :: splitBreaks (y :: l)); now rewrite F2|].
        cbn [filter]. now rewrite G2.
    + destruct (N.eqb_spec x LF) as [->|Hlf].
      * exists [], (p2 :: ps2), (p2 :: ps2').
        split; [cbn [str_split]; now rewrite N.eqb_refl, E2|].
        split; [change (splitBreaks (LF :: y :: l))
                  with ([] :: splitBreaks (y :: l)); now rewrite F2|].
        cbn [filter]. now rewrite G2.
      * exists (x :: p2), ps2, ps2'.
        apply N.eqb_neq in Hlf, Hcr.
        split; [cbn [str_split]; now rewrite Hlf, E2|].
        split; [|exact G2].
        change (splitBreaks (x :: y :: l))
          with (if isBreak x then [] :: splitBreaks (y :: l)
                else match splitBreaks (y :: l) with
                     | p :: ps => (x :: p) :: ps
                     | [] => [[x]]
                     end).
        unfold isBreak. now rewrite Hlf, Hcr, F2.
Qed.

Lemma csvLines_nonEmptyLines (text : jstring) : csvLines text = nonEmptyLines text.
Proof.
  unfold csvLines, nonEmptyLines.
  destruct (csvLines_pieces text) as (p & ps & ps' & -> & -> & G).
  cbn [filter]. now rewrite G.
Qed.

Lemma splitBreaks_no_break (s : jstring) :
  Forall (Forall (fun c => c <> LF /\ c <> CR)) (splitBreaks s).
Proof.
  induction s as [|c s IH]; [repeat constructor|].
  cbn [splitBreaks]. unfold isBreak.
  destruct (N.eqb_spec c LF) as [->|Hlf]; [constructor; [constructor|exact IH]|].
  destruct (N.eqb_spec c CR) as [->|Hcr]; [constructor; [constructor|exact IH]|].
  cbn [orb]. destruct (splitBreaks s) as [|p ps].
  - repeat constructor; assumption.
  - inversion IH as [|? ? Hp Hps]; subst.
    constructor; [constructor; [split; assumption|exact Hp]|exact Hps].
Qed.

(** C10, amended: on every text with a character other than a line break
    [parseCSV] returns, without raising, one row, in order, for each
    non-empty line after the first non-empty line (the header), a line
    being a maximal run of characters other than line feed and carriage
    return; only empty lines are skipped, so a line of blanks yields a row;
    a field whose column name the header lacks, or whose index the data row
    does not reach, is the empty string. *)
Theorem parseCSV_total_on_content (text : jstring) :
  (exists c, In c text /\ c <> LF /\ c <> CR) ->
  exists line0 data,
    nonEmptyLines text = line0 :: data
    /\ Forall (fun l => l <> [] /\ Forall (fun c => c <> LF /\ c <> CR) l)
              (line0 :: data)
    /\ let header := map trim (str_split COMMA line0) in
       parseCSV text = Ok (map (parseCSV_row header) data)
       /\ forall line,
            let row := scanLine line [] [] false in
            let short name :=
              ~ In name header \/ Z.of_nat (length row) <= findIndex name header in
            (short (js "date") -> row_date (parseCSV_row header line) = [])
            /\ (short (js "exercise") -> row_exercise (parseCSV_row header line) = [])
            /\ (short (js "weight") -> row_weight (parseCSV_row header line) = [])
            /\ (short (js "reps") -> row_reps (parseCSV_row header line) = [])
            /\ (short (js "note") -> row_note (parseCSV_row header line) = []).
Proof.
  intros Hc. pose proof (@csvLines_content text Hc) as Hne.
  assert (Hall : Forall (fun l => l <> [] /\ Forall (fun c => c <> LF /\ c <> CR) l)
                        (nonEmptyLines text)).
  { apply Forall_forall. intros l Hl. unfold nonEmptyLines in Hl.
    apply filter_In in Hl as [Hl Hn]. split; [now destruct l|].
    pose proof (splitBreaks_no_break text) as H.
    rewrite Forall_forall in H. now apply H. }
  unfold parseCSV. rewrite csvLines_nonEmptyLines in *.
  destruct (nonEmptyLines text) as [|line0 data]; [congruence|].
  exists line0, data. split; [reflexivity|]. split; [exact Hall|].
  cbv zeta. set (header := map trim (str_split COMMA line0)).
  split; [reflexivity|].
  intros line. set (row := scanLine line [] [] false).
  assert (Hcell : forall name,
             ~ In name header \/ Z.of_nat (length row) <= findIndex name header ->
             cell row (findIndex name header) = []).
  { intros name [Habs|Hlen]; apply cell_missing.
    - left. unfold findIndex. rewrite findIndex_from_absent by assumption. lia.
    - now right. }
  repeat split; intros Hs; apply (Hcell _ Hs).
Qed.

(* ================================================================= *)
(** ** The one-shot migration *)

Section MigrationFacts.
Context {Num : JsNumber}.

(** X3: the batch of the migration keeps only rows with a date and
    positive weight and reps. *)
Theorem migrationRows_valid (userId : jstring) (arr : list value) (r : MigrationRow) :
  In r (migrationRows userId arr) ->
  m_date r <> [] /\ num_gt (m_weight r) zero = true /\ num_gt (m_reps r) zero = true.
Proof.
  unfold migrationRows. intros H. apply filter_In in H as [_ H].
  unfold migrationKeeps in H.
  apply andb_true_iff in H as [H Hr]. apply andb_true_iff in H as [Hd Hw].
  repeat split; auto. now destruct (m_date r).
Qed.

(** An element whose date is empty or whose weight or reps is not positive
    is dropped. *)
Lemma migrationRows_drops (userId : jstring) (l : value) :
  m_date (migrationRow userId l) = []
  \/ num_le (m_weight (migrationRow userId l)) zero = true
  \/ num_le (m_reps (migrationRow userId l)) zero = true ->
  migrationKeeps (migrationRow userId l) = false.
Proof.
  unfold migrationKeeps, num_gt. intros [H|[H|H]].
  - now rewrite H.
  - destruct (num_lt zero (m_weight (migrationRow userId l))) eqn:E.
    + apply num_pos_not_le in E. unfold zero in H. congruence.
    + now rewrite andb_false_r.
  - destruct (num_lt zero (m_reps (migrationRow userId l))) eqn:E.
    + apply num_pos_not_le in E. unfold zero in H. congruence.
    + now rewrite andb_false_r.
Qed.

(** The snapshot is removed whenever the promise of the insert is
    fulfilled, whether or not the result carries an error. *)
Lemma migrationEffect_fulfilled
      (JSON_parse : jstring -> result value) (userId raw : jstring)
      (x : value) (xs : list value) (error : option jstring) :
  raw <> [] -> JSON_parse raw = Ok (VArr (x :: xs)) ->
  migrationEffect JSON_parse userId (Some raw) (Fulfilled error)
  = mkMigration (Some (migrationRows userId (x :: xs))) None.
Proof.
  intros Hraw Hparse. unfold migrationEffect.
  destruct raw; [congruence|]. cbn [nonEmpty negb].
  now rewrite Hparse.
Qed.

End MigrationFacts.

(* ================================================================= *)
(** ** The CSV round trip *)

Section CsvFacts.
Context {Num : JsNumber}.

Lemma scanLine_out (ch : char) (rest : jstring) (row : list jstring) (cur : jstring) :
  scanLine (ch :: rest) row cur false
  = if N.eqb ch COMMA then scanLine rest (row ++ [cur]) [] false
    else if N.eqb ch QUOTE then scanLine rest row cur true
    else scanLine rest row (cur ++ [ch]) false.
Proof. reflexivity. Qed.












(** *** The lines of an exported text *)

Lemma normalizeNewlines_id (s : jstring) :
  Forall (fun c => c <> CR) s -> normalizeNewlines s = s.
Proof.
  induction 1 as [|c s Hc Hs IH]; [reflexivity|].
  apply N.eqb_neq in Hc.
  destruct s as [|y l]; simpl; rewrite Hc; [reflexivity|].
  simpl in IH. now rewrite IH.
Qed.







(** *** One entry through the round trip *)












End CsvFacts.

(* ================================================================= *)
(** * The program at concrete inputs *)

Lemma mapi_from_length (A B : Type) (f : nat -> A -> B) (l : list A) (i : nat) :
  length (mapi_from i f l) = length l.
Proof.
  revert i; induction l as [|x t IH]; intros i; simpl; [reflexivity|].
  now rewrite IH.
Qed.

(** C1: the filter of the JSON branch of the import lets every element
    through, one entry per element of the document, whatever the numbers
    and the date are.  On a document whose only element has weight -5 the
    element is accepted and [mergeLogs] stores it, where the claim has it
    rejected; the CSV branch and the migration reject the same data. *)
Theorem importJSON_accepts_negative_weight :
  (forall (Num : JsNumber) (fresh : nat -> jstring) (obj : value),
      length (importJSON fresh obj) = length (importJSON_array obj))
  /\ importJSON noFresh (VArr [negativeWeightElement]) = [negativeWeightLog]
  /\ num_le (weight negativeWeightLog) zero = true
  /\ isLog (Log_value negativeWeightLog) = true
  /\ mergeLogs [] (importJSON noFresh (VArr [negativeWeightElement]))
     = [negativeWeightLog]
  /\ csvRowsToLogs (Num := IntNum) noFresh [negativeWeightRow] = []
  /\ migrationRows (js "u") [negativeWeightElement] = [].
Proof.
  split.
  - intros Num fresh obj. unfold importJSON, mapi.
    now rewrite filter_isLog, mapi_from_length.
  - vm_compute. repeat split.
Qed.

(** *** Migration with a failing insert *)

(** C8: the insert of the batch fails and the client reports it in the
    [error] of the fulfilled result.  The valid entry was submitted, and the
    snapshot is removed all the same, as it is after a successful insert,
    where the claim has it remain; it remains only when the promise is
    rejected. *)
Theorem migration_removes_snapshot_on_failed_insert :
  let batch := [ mkRow (js "2024-01-01") Other (IntNumber.Int 100)
                       (IntNumber.Int 3) None (js "u") ] in
  migrationEffect JSON_parse_example (js "u") (Some legacySnapshot)
                  (Fulfilled (Some (js "permission denied")))
  = mkMigration (Some batch) None
  /\ migrationEffect JSON_parse_example (js "u") (Some legacySnapshot)
                     (Fulfilled None)
     = mkMigration (Some batch) None
  /\ migrationEffect JSON_parse_example (js "u") (Some legacySnapshot) Rejected
     = mkMigration (Some batch) (Some legacySnapshot).
Proof. vm_compute. repeat split. Qed.

(** *** A note of two lines through the CSV round trip *)

(** C2: [toCSV] wraps the two-line note in quotes, [parseCSV] cuts the text
    at the line feed before it looks at quotes: the entry comes back with
    the note cut down to its first line, and the rest of the note is read as
    a row of its own and dropped. *)
Theorem csv_roundtrip_loses_second_line :
  validEntry twoLineNoteLog = true
  /\ csvLines (toCSV [twoLineNoteLog])
     = [ js "date,exercise,weight,reps,note";
         js "2024-01-01," ++ label Squat ++ js ",100,3," ++ [QUOTE] ++ js "a";
         js "b" ++ [QUOTE] ]
  /\ (exists out,
        csvRoundTrip noFresh [twoLineNoteLog] = Ok out
        /\ map entryFields out
           = [ (js "2024-01-01", Squat, IntNumber.Int 100, IntNumber.Int 3,
                Some (js "a")) ]
        /\ map entryFields out <> map entryFields [twoLineNoteLog]).
Proof.
  split; [reflexivity|]. split; [reflexivity|].
  eexists. split; [vm_compute; reflexivity|].
  split; [reflexivity|]. vm_compute. discriminate.
Qed.

(** C10, as stated, fails on the empty text: [lines[0]] is [undefined] and
    reading its [split] raises. *)
Lemma parseCSV_empty_text_throws : parseCSV [] = Throw TypeError.
Proof. reflexivity. Qed.

(** *** The theorems at concrete inputs *)

(** A line of blanks is not empty: it is kept and read as a row. *)
Lemma parseCSV_keeps_blank_line :
  parseCSV (js "date,note" ++ [LF] ++ js "   " ++ [LF] ++ [LF] ++ js "2024-01-01,x")
  = Ok [ mkCsvRow (js "   ") [] [] [] [];
         mkCsvRow (js "2024-01-01") [] [] [] (js "x") ].
Proof. reflexivity. Qed.

Lemma parseCSV_total_on_content_witness :
  let text := js "date,note" ++ [LF; LF] ++ js "2024-01-01,x" in
  (exists c, In c text /\ c <> LF /\ c <> CR)
  /\ exists line0 data, nonEmptyLines text = line0 :: data.
Proof.
  intros text.
  assert (Hc : exists c, In c text /\ c <> LF /\ c <> CR).
  { exists 100%N. split; [now left|]. split; discriminate. }
  split; [exact Hc|].
  destruct (@parseCSV_total_on_content text Hc) as (line0 & data & H & _).
  now exists line0, data.
Defined.


Lemma In_firstn_In (A : Type) (k : nat) (l : list A) (x : A) :
  In x (firstn k l) -> In x l.
Proof.
  revert l; induction k as [|k IH]; intros [|y l]; simpl; try tauto.
  intros [H|H]; auto.
Qed.

Lemma IntNum_sumProducts (es : list (Log (Num := IntNum))) :
  Forall (fun l => num_isNaN (weight l) = false /\ num_isNaN (reps l) = false) es ->
  num_isNaN (sumProducts es) = false.
Proof.
  unfold sumProducts.
  assert (H : forall (acc : number (JsNumber := IntNum)),
             num_isNaN acc = false ->
             Forall (fun l => num_isNaN (weight l) = false
                              /\ num_isNaN (reps l) = false) es ->
             num_isNaN (fold_left num_add
                          (map (fun l => num_mul (weight l) (reps l)) es) acc)
             = false).
  { induction es as [|l t IH]; intros acc Hacc Hall; [exact Hacc|].
    inversion Hall as [|? ? [Hw Hr] Ht]; subst. cbn [map fold_left].
    apply IH; [|exact Ht].
    destruct acc as [|a]; [discriminate|].
    destruct (weight l) as [|w]; [discriminate|].
    destruct (reps l) as [|r]; [discriminate|]. reflexivity. }
  apply H. reflexivity.
Qed.

(** Three entries of one day; the weight of the third was a text that is
    no numeral. *)
Definition jan15_squat : Log (Num := IntNum) :=
  mkLog (js "s1") (js "2024-01-15") Squat (IntNumber.Int 100) (IntNumber.Int 3) None.

Definition jan15_bench : Log (Num := IntNum) :=
  mkLog (js "s2") (js "2024-01-15") BenchPress (IntNumber.Int 80) (IntNumber.Int 5) None.

Definition jan15_nan : Log (Num := IntNum) :=
  mkLog (js "s3") (js "2024-01-15") Squat IntNumber.Nan (IntNumber.Int 5) None.

(** The element of a JSON document the third entry is imported from. *)
Definition textWeightElement : value (Num := IntNum) :=
  VObj [ (js "id", VStr (js "s3"));
         (js "date", VStr (js "2024-01-15"));
         (js "exercise", VStr (label Squat));
         (js "weight", VStr (js "heavy"));
         (js "reps", VNum (IntNumber.Int 5)) ].

(** C7, as stated, fails on a collection with a weight that is [NaN]: the
    total of the day restarts after it, so an entry inside the window that
    comes before it adds nothing, and the total depends on the order. *)
Lemma dailyData_nan_resets_total :
  let today := mkDate 2024 0 15 in
  let ds := js "2024-01-15" in
  importJSON noFresh (VArr [textWeightElement]) = [jan15_nan]
  /\ In ds (window today)
  /\ last (dailyData today [jan15_squat; jan15_nan; jan15_bench]) ([], zero)
     = (ds, IntNumber.Int 400)
  /\ last (dailyData today [jan15_nan; jan15_squat; jan15_bench]) ([], zero)
     = (ds, IntNumber.Int 700)
  /\ num_mul (weight jan15_squat) (reps jan15_squat) = IntNumber.Int 300
  /\ dayTotal_spec [jan15_squat; jan15_nan; jan15_bench] ds = IntNumber.Nan.
Proof.
  cbv zeta. split; [reflexivity|].
  split; [vm_compute; tauto|].
  split; [vm_compute; reflexivity|].
  split; [vm_compute; reflexivity|].
  split; reflexivity.
Qed.

Lemma dailyData_series_witness :
  let today := mkDate 2024 0 15 in
  let logs := [jan15_squat; jan15_bench; bench_80x5; squat_100x3] in
  validDate today
  /\ dailyData today logs
     = map (fun ds => (ds, dayTotal_spec logs ds)) (window today).
Proof.
  intros today logs.
  assert (Hv : validDate today) by (unfold validDate; simpl; lia).
  split; [exact Hv|].
  destruct (@dailyData_series IntNum today logs Hv) as (_ & _ & _ & _ & _ & _ & H).
  apply H. intros ds k _. apply IntNum_sumProducts.
  apply Forall_forall. intros l Hl.
  apply In_firstn_In in Hl.
  apply entriesOnDate_In in Hl as [Hl _].
  repeat (destruct Hl as [<-|Hl]; [split; reflexivity|]). destruct Hl.
Defined.

Lemma IntNum_trichotomy (x y : number (JsNumber := IntNum)) :
  num_isNaN x = false -> num_isNaN y = false ->
  num_lt x y = true \/ x = y \/ num_lt y x = true.
Proof.
  destruct x as [|a], y as [|b]; try discriminate. intros _ _.
  cbn [num_lt IntNum IntNumber.lt].
  destruct (Z.lt_trichotomy a b) as [H|[H|H]].
  - left. now apply Z.ltb_lt.
  - right. left. now subst.
  - right. right. now apply Z.ltb_lt.
Qed.

(** A lighter squat on the day before. *)
Definition squat_90x5 : Log (Num := IntNum) :=
  mkLog (js "d4") (js "2023-12-31") Squat (IntNumber.Int 90) (IntNumber.Int 5) None.

Lemma prSet_iff_strict_best_witness :
  In Squat (prSet [squat_90x5; bench_80x5; squat_100x3] (js "2024-01-01")).
Proof.
  destruct (@prSet_iff_strict_best IntNum [squat_90x5; bench_80x5; squat_100x3]
              (js "2024-01-01") Squat) as (_ & _ & _ & _ & _ & H).
  apply (H IntNum_trichotomy squat_100x3).
  - right. right. now left.
  - reflexivity.
  - reflexivity.
  - reflexivity.
  - intros l' [<-|[<-|[<-|[]]]] Hd He; first [reflexivity | discriminate].
  - intros l' [<-|[<-|[<-|[]]]] Hd He; try discriminate.
    + split; [reflexivity|discriminate].
    + now contradiction Hd.
Defined.



Lemma migrationRows_valid_witness :
  let r := mkRow (js "2024-01-01") Squat (IntNumber.Int 100) (IntNumber.Int 3)
                 None (js "u") in
  let arr := [negativeWeightElement; Log_value squat_100x3] in
  In r (migrationRows (js "u") arr)
  /\ m_date r <> [] /\ num_gt (m_weight r) zero = true
  /\ num_gt (m_reps r) zero = true.
Proof.
  intros r arr.
  assert (Hin : In r (migrationRows (js "u") arr)) by (vm_compute; tauto).
  split; [exact Hin|].
  apply (migrationRows_valid (js "u") arr r Hin).
Defined.

(* ================================================================= *)
(** * The rest of the application: loading, the entry form, deletion, the
      day's list and the chart of bests *)

Definition MSG_NOT_A_NUMBER : jstring :=
  [25968; 20516; 12434; 20837; 21147; 12375; 12390; 12397]%N.
Definition MSG_WEIGHT_POSITIVE : jstring :=
  [48; 12424; 12426; 22823; 12365; 12356; 20516; 12395; 12375; 12390; 12397]%N.
Definition MSG_WEIGHT_MAX : jstring :=
  [53; 48; 48; 107; 103; 20197; 19979; 12395; 12375; 12390; 12397]%N.
Definition MSG_REPS_POSITIVE : jstring :=
  [49; 22238; 20197; 19978; 12395; 12375; 12390; 12397]%N.
Definition MSG_REPS_MAX : jstring :=
  [49; 48; 48; 22238; 20197; 19979; 12395; 12375; 12390; 12397]%N.
Definition MSG_ADDED : jstring :=
  [35352; 37682; 12434; 36861; 21152; 12375; 12383; 12424]%N.
Definition MSG_DELETED : jstring :=
  [49; 20214; 21066; 38500; 12375; 12383; 12424]%N.

Section App.
Context {Num : JsNumber}.

(** ** The initial state: the collection read from [localStorage] *)

(** The callback of [arr.map] in the initializer of [logs]; [fallback] is
    the template string of [Date.now()] and [Math.random()]. *)
Definition loadLogs_entry (fallback : jstring) (l : value) : option Log :=
  let id := match prop l "id" with VStr s => s | _ => fallback end in
  let date := match prop l "date" with VStr s => Some s | _ => None end in
  let w := ToNumber (prop l "weight") in
  let r := ToNumber (prop l "reps") in
  let ex := normalizeExercise (prop l "exercise") in
  let n := match prop l "note" with
           | VStr n => if nonBlank n then Some n else None
           | _ => None
           end in
  match date with
  | Some d =>
      if negb (nonEmpty id) || negb (nonEmpty d) || num_isNaN w || num_isNaN r
      then None
      else Some (mkLog id d ex w r n)
  | None => None
  end.

(** The array the initializer reads: the parsed document itself or its
    [logs]; [None] where the source returns the empty collection at once. *)
Definition storedArray (parsed : value) : option (list value) :=
  match parsed with
  | VArr items => Some items
  | _ =>
      if toBoolean parsed && isObject parsed && isArray (prop parsed "logs")
      then match prop parsed "logs" with VArr items => Some items | _ => None end
      else None
  end.

Section Storage.
Variable JSON_parse : jstring -> result value.
Variable fresh : nat -> jstring.

(** The initializer of the [logs] state; [raw] is
    [localStorage.getItem(STORAGE_KEY)], and the [catch] turns whatever
    [JSON.parse] throws into the empty collection. *)
Definition loadLogs (raw : option jstring) : list Log :=
  match raw with
  | None => []
  | Some raw =>
      if negb (nonEmpty raw) then []
      else
        match JSON_parse raw with
        | Throw _ => []
        | Ok parsed =>
            match storedArray parsed with
            | Some arr => filterSome (mapi (fun i l => loadLogs_entry (fresh i) l) arr)
            | None => []
            end
        end
  end.
End Storage.

(** ** The entry form *)

Record Form := mkForm {
  f_exercise : Exercise;
  f_weight : jstring;
  f_reps : jstring;
  f_note : jstring
}.

Definition weightError (weight : jstring) : option jstring :=
  let weightNum := ToNumber (VStr weight) in
  if negb (nonEmpty weight) then None
  else if num_isNaN weightNum then Some MSG_NOT_A_NUMBER
  else if num_le weightNum zero then Some MSG_WEIGHT_POSITIVE
  else if num_gt weightNum (of_Z 500) then Some MSG_WEIGHT_MAX
  else None.

Definition repsError (reps : jstring) : option jstring :=
  let repsNum := ToNumber (VStr reps) in
  if negb (nonEmpty reps) then None
  else if num_isNaN repsNum then Some MSG_NOT_A_NUMBER
  else if num_le repsNum zero then Some MSG_REPS_POSITIVE
  else if num_gt repsNum (of_Z 100) then Some MSG_REPS_MAX
  else None.

Definition noError (e : option jstring) : bool :=
  match e with None => true | Some _ => false end.

Definition canAdd (form : Form) : bool :=
  nonEmpty (label (f_exercise form))
  && nonEmpty (f_weight form) && nonEmpty (f_reps form)
  && noError (weightError (f_weight form))
  && noError (repsError (f_reps form)).

(** [handleAdd]; [uuid] is what [crypto.randomUUID] (or the fallback
    template) returns. *)
Definition handleAdd (uuid : jstring) (selectedDate : JsDate)
           (form : Form) (st : AppState) : Form * AppState :=
  if negb (canAdd form) then (form, st)
  else
    let trimmedNote := trim (f_note form) in
    let newLog :=
      mkLog uuid (formatDate selectedDate) (f_exercise form)
            (ToNumber (VStr (f_weight form))) (ToNumber (VStr (f_reps form)))
            (if nonEmpty trimmedNote then Some trimmedNote else None) in
    (mkForm (f_exercise form) [] [] [],
     {| logs := newLog :: logs st; toast := MSG_ADDED |}).

(** ** Deletion and the calendar marks *)

Definition handleDelete (i : jstring) (st : AppState) : AppState :=
  {| logs := filter (fun log => negb (str_eqb (id log) i)) (logs st);
     toast := MSG_DELETED |}.

Definition hasLogs (logs : list Log) (d : JsDate) : bool :=
  existsb (fun l => str_eqb (date l) (formatDate d)) logs.

(** ** The list of the selected day *)

(** The object [groupedByExercise]: a key is present once an entry of that
    exercise was pushed. *)
Definition Groups := Exercise -> option (list Log).

Definition groupStep (acc : Groups) (l : Log) : Groups :=
  fun e =>
    if Exercise_eqb e (exercise l)
    then Some (match acc (exercise l) with
               | Some arr => arr ++ [l]
               | None => [l]
               end)
    else acc e.

Definition groupedByExercise (logsOfDay : list Log) : Groups :=
  fold_left groupStep logsOfDay (fun _ => None).

Definition EXERCISE_ORDER : list Exercise :=
  [BenchPress; Squat; Deadlift; ShoulderPress; Rowing;
   SideRaise; LyingExtension; EZBarCurl; Other].

(** The cards the list renders: for each exercise in [EXERCISE_ORDER] whose
    group is present and not empty, the exercise, its entries and their
    total volume. *)
Definition renderedGroups (logs : list Log) (dateStr : jstring)
  : list (Exercise * list Log * number) :=
  filterSome
    (map (fun ex =>
            match groupedByExercise (logsForDate logs dateStr) ex with
            | Some (x :: arr) => Some (ex, x :: arr, volume (x :: arr))
            | _ => None
            end)
         EXERCISE_ORDER).

(** ** The dashboard figures *)

Definition bestByExercise (logs : list Log) : BestTable :=
  fold_left bestStep logs bestInit.

Definition todayTotalVolume (logs : list Log) (dateStr : jstring) : number :=
  volume (logsForDate logs dateStr).

End App.

Section AppFacts.
Context {Num : JsNumber}.

(** ** [normalizeExercise] *)

Lemma label_inj (a b : Exercise) : label a = label b -> a = b.
Proof. destruct a, b; simpl; intros H; try reflexivity; discriminate. Qed.

(** X4: [normalizeExercise] returns a canonical name unchanged and maps
    everything else, strings of other content and values of other types
    alike, to the catch-all; applying it twice changes nothing more; and
    [EXERCISES.includes] holds exactly of the nine names. *)
Theorem normalizeExercise_canonical (val : value) :
  (forall e, val = VStr (label e) -> normalizeExercise val = e)
  /\ ((forall e, val <> VStr (label e)) -> normalizeExercise val = Other)
  /\ normalizeExercise (VStr (label (normalizeExercise val))) = normalizeExercise val
  /\ (EXERCISES_includes val = true <-> exists e, val = VStr (label e))
  /\ (EXERCISES_includes val = false -> normalizeExercise val = Other).
Proof.
  assert (Hinc : EXERCISES_includes val = true <-> exists e, val = VStr (label e)).
  { split.
    - destruct val; unfold EXERCISES_includes; try discriminate.
      intros H. apply existsb_exists in H as (e & _ & He).
      apply str_eqb_spec in He. exists e. now rewrite He.
    - intros [e ->]. apply EXERCISES_includes_label. }
  assert (Hother : EXERCISES_includes val = false -> normalizeExercise val = Other).
  { destruct val; try reflexivity. unfold EXERCISES_includes, normalizeExercise.
    intros H. destruct (find _ EXERCISES) as [e|] eqn:E; [|reflexivity].
    apply find_some in E as [Hin He].
    assert (Ht : existsb (fun e => str_eqb (label e) s) EXERCISES = true)
      by (apply existsb_exists; eauto).
    congruence. }
  split; [|split; [|split; [|split]]].
  - intros e ->. apply normalizeExercise_label.
  - intros Hno. apply Hother.
    destruct (EXERCISES_includes val) eqn:E; [|reflexivity].
    destruct (proj1 Hinc eq_refl) as [e He]. now apply Hno in He.
  - apply normalizeExercise_label.
  - exact Hinc.
  - exact Hother.
Qed.

(** ** [handleDelete] *)

Lemma filter_id_NoDup (i : jstring) (ls : list Log) :
  NoDup (map id ls) ->
  NoDup (map id (filter (fun log => negb (str_eqb (id log) i)) ls)).
Proof.
  induction ls as [|l t IH]; simpl; intros H; [constructor|].
  inversion H as [|? ? Hnot Hnd]; subst.
  destruct (negb (str_eqb (id l) i)); simpl; [|auto].
  constructor; [|auto].
  intros Hin. apply Hnot. apply in_map_iff in Hin as (x & Hx & Hin).
  apply filter_In in Hin as [Hin _]. apply in_map_iff. eauto.
Qed.

Lemma filter_absent (i : jstring) (ls : list Log) :
  ~ In i (map id ls) -> filter (fun log => negb (str_eqb (id log) i)) ls = ls.
Proof.
  induction ls as [|l t IH]; simpl; intros H; [reflexivity|].
  assert (E : str_eqb (id l) i = false) by (apply str_eqb_false; tauto).
  rewrite E. simpl. f_equal. apply IH. tauto.
Qed.

Lemma filter_one (i : jstring) (ls : list Log) :
  NoDup (map id ls) -> In i (map id ls) ->
  S (length (filter (fun log => negb (str_eqb (id log) i)) ls)) = length ls.
Proof.
  induction ls as [|l t IH]; simpl; intros Hnd Hin; [destruct Hin|].
  inversion Hnd as [|? ? Hnot Hnd']; subst.
  destruct (str_eqb (id l) i) eqn:E; simpl.
  - apply str_eqb_spec in E. subst i. now rewrite filter_absent.
  - apply str_eqb_false in E. destruct Hin as [Hin|Hin]; [congruence|].
    f_equal. now apply IH.
Qed.

Lemma filter_sorted (A : Type) (R : A -> A -> Prop) (p : A -> bool) (ls : list A) :
  StronglySorted R ls -> StronglySorted R (filter p ls).
Proof.
  induction 1 as [|x t Hs IH Hall]; simpl; [constructor|].
  destruct (p x); [|exact IH]. constructor; [exact IH|].
  apply Forall_forall. intros y Hy. apply filter_In in Hy as [Hy _].
  rewrite Forall_forall in Hall. auto.
Qed.

(** X5: [handleDelete] removes the entries that carry the identifier and
    no other, keeps the order of the rest, does nothing to the collection
    when no entry carries it, removes exactly one entry when identifiers
    are distinct, keeps identifiers distinct and the date order, and undoes
    a [handleAdd] whose identifier was new. *)
Theorem handleDelete_removes_exactly (i : jstring) (st : AppState) :
  let st' := handleDelete i st in
  (forall l, In l (logs st') <-> In l (logs st) /\ id l <> i)
  /\ (~ In i (map id (logs st)) -> logs st' = logs st)
  /\ (NoDup (map id (logs st)) -> In i (map id (logs st)) ->
      S (length (logs st')) = length (logs st))
  /\ (NoDup (map id (logs st)) -> NoDup (map id (logs st')))
  /\ (StronglySorted (fun a b => str_ltb (date a) (date b) = false) (logs st) ->
      StronglySorted (fun a b => str_ltb (date a) (date b) = false) (logs st'))
  /\ (forall d form, canAdd form = true -> ~ In i (map id (logs st)) ->
        logs (handleDelete i (snd (handleAdd i d form st))) = logs st).
Proof.
  cbv zeta. unfold handleDelete. cbn [logs].
  split; [|split; [|split; [|split; [|split]]]].
  - intros l. rewrite filter_In, negb_true_iff, str_eqb_false. tauto.
  - apply filter_absent.
  - apply filter_one.
  - apply filter_id_NoDup.
  - apply filter_sorted.
  - intros d form Hc Hnew. unfold handleAdd. rewrite Hc. cbn [negb snd logs filter id].
    rewrite str_eqb_refl. cbn [negb]. now apply filter_absent.
Qed.

(** ** The list of the selected day *)

Lemma groupStep_fold (ls : list Log) (acc : Groups) (e : Exercise) :
  fold_left groupStep ls acc e
  = match filter (fun l => Exercise_eqb (exercise l) e) ls with
    | [] => acc e
    | x :: f => Some (match acc e with Some arr => arr | None => [] end ++ x :: f)
    end.
Proof.
  revert acc; induction ls as [|l t IH]; intros acc; [reflexivity|].
  cbn [fold_left filter]. rewrite IH. unfold groupStep.
  destruct (Exercise_eqb (exercise l) e) eqn:E.
  - apply Exercise_eqb_spec in E. subst e. rewrite Exercise_eqb_refl.
    destruct (filter _ t) as [|y f].
    + destruct (acc (exercise l)); reflexivity.
    + destruct (acc (exercise l)); [rewrite <- app_assoc|]; reflexivity.
  - rewrite Exercise_eqb_sym, E. reflexivity.
Qed.

Lemma groupedByExercise_filter (ls : list Log) (e : Exercise) :
  groupedByExercise ls e
  = match filter (fun l => Exercise_eqb (exercise l) e) ls with
    | [] => None
    | x :: f => Some (x :: f)
    end.
Proof. unfold groupedByExercise. rewrite groupStep_fold. reflexivity. Qed.




Lemma renderedGroups_eq (logs : list Log) (dateStr : jstring) :
  renderedGroups logs dateStr
  = filterSome
      (map (fun ex =>
              match filter (fun l => Exercise_eqb (exercise l) ex)
                           (logsForDate logs dateStr) with
              | [] => None
              | arr => Some (ex, arr, volume arr)
              end) EXERCISE_ORDER).
Proof.
  unfold renderedGroups. f_equal. apply map_ext. intros ex.
  rewrite groupedByExercise_filter. now destruct (filter _ _).
Qed.

Lemma rendered_In (logs : list Log) (dateStr : jstring)
      (ex : Exercise) (arr : list Log) (v : number) :
  In (ex, arr, v) (renderedGroups logs dateStr)
  <-> arr <> []
      /\ arr = filter (fun l => Exercise_eqb (exercise l) ex)
                      (logsForDate logs dateStr)
      /\ v = volume arr.
Proof.
  rewrite renderedGroups_eq. set (day := logsForDate logs dateStr).
  assert (Hall : forall e, In e EXERCISE_ORDER) by (intros []; simpl; tauto).
  generalize (Hall ex). generalize EXERCISE_ORDER as es.
  intros es Hex. split.
  - clear Hex. induction es as [|e es IH]; simpl; [tauto|].
    destruct (filter (fun l => Exercise_eqb (exercise l) e) day) as [|x f] eqn:E;
      simpl; [exact IH|].
    intros [[= <- <- <-]|H]; [|auto]. repeat split; auto. discriminate.
  - intros (Hne & -> & ->). induction es as [|e es IH]; [destruct Hex|].
    simpl. destruct Hex as [->|Hex].
    + destruct (filter (fun l => Exercise_eqb (exercise l) ex) day) eqn:E;
        [congruence|]. now left.
    + destruct (filter (fun l => Exercise_eqb (exercise l) e) day);
        simpl; auto.
Qed.


End AppFacts.

Section AppFacts2.
Context {Num : JsNumber}.

(** ** The chart of bests *)

(** X7: the chart of bests never shows less than a recorded weight: no
    entry is heavier than the best of its exercise; the best of an exercise
    is 0 or the weight of one of its entries, greater than 0 in that case,
    so entries of weight 0 or less never show; and an exercise without
    entries shows 0. *)
Theorem bestByExercise_is_max (logs : list Log) :
  (forall l, In l logs ->
             num_gt (weight l) (bestByExercise logs (exercise l)) = false)
  /\ (forall e,
        bestByExercise logs e = zero
        \/ (num_gt (bestByExercise logs e) zero = true
            /\ exists l, In l logs /\ exercise l = e
                         /\ weight l = bestByExercise logs e))
  /\ (forall e, (forall l, In l logs -> exercise l <> e) ->
                bestByExercise logs e = zero).
Proof.
  unfold bestByExercise.
  assert (Hb : forall e,
             let ws := map weight (filter (fun l => Exercise_eqb (exercise l) e) logs) in
             fold_left bestStep logs bestInit e
             = fold_left (fun b w => if num_gt w b then w else b) ws zero).
  { intros e. exact (fold_bestStep logs bestInit e). }
  cbv zeta in Hb. split; [|split].
  - intros l Hl. rewrite Hb.
    destruct (fold_max_bounds
                (map weight (filter (fun x => Exercise_eqb (exercise x) (exercise l)) logs))
                zero) as (_ & _ & H3).
    apply H3. apply in_map. apply filter_In. split; [exact Hl|].
    apply Exercise_eqb_refl.
  - intros e. rewrite Hb.
    destruct (fold_max_bounds
                (map weight (filter (fun x => Exercise_eqb (exercise x) e) logs))
                zero) as (H1 & H2 & _).
    cbv zeta in H1, H2.
    destruct H1 as [H1|H1]; [now left|right]. split; [exact H1|].
    destruct H2 as [H2|H2].
    + rewrite H2 in H1. now rewrite num_lt_irrefl in H1.
    + apply in_map_iff in H2 as (l & Hw & Hl). apply filter_In in Hl as [Hl He].
      apply Exercise_eqb_spec in He. exists l. auto.
  - intros e Hno. rewrite Hb.
    replace (filter (fun l => Exercise_eqb (exercise l) e) logs) with (@nil Log);
      [reflexivity|].
    symmetry. clear Hb. induction logs as [|l t IH]; [reflexivity|].
    simpl. destruct (Exercise_eqb (exercise l) e) eqn:E.
    + apply Exercise_eqb_spec in E. exfalso. exact (Hno l (or_introl eq_refl) E).
    + apply IH. intros x Hx. apply Hno. now right.
Qed.

(** ** [mergeLogs] once more *)

Lemma merge_fold_fresh (ls : list Log) (m : JsMap.t Log) :
  NoDup (JsMap.keys m ++ map id ls) ->
  fold_left mergeLogs_step ls m = m ++ map (fun l => (id l, l)) ls.
Proof.
  revert m; induction ls as [|l t IH]; intros m Hnd; simpl.
  - now rewrite app_nil_r.
  - rewrite mergeLogs_step_set.
    assert (Hnew : ~ In (id l) (JsMap.keys m)).
    { intros Hin. apply NoDup_remove_2 in Hnd. apply Hnd.
      apply in_or_app. now left. }
    rewrite JsMap_set_new by exact Hnew. rewrite IH.
    + now rewrite <- app_assoc.
    + unfold JsMap.keys in *. rewrite map_app. simpl.
      rewrite <- app_assoc. exact Hnd.
Qed.

Lemma values_of_entries (ls : list Log) :
  JsMap.values (map (fun l => (id l, l)) ls) = ls.
Proof. unfold JsMap.values. rewrite map_map. apply map_id. Qed.

Lemma keys_of_entries (ls : list Log) :
  JsMap.keys (map (fun l => (id l, l)) ls) = map id ls.
Proof. unfold JsMap.keys. now rewrite map_map. Qed.

(** X8: when no identifier occurs twice among the existing and the
    incoming entries, the merge loses and invents nothing: the result is
    the existing and the incoming entries in another order, and has as many
    entries as both together. *)
Theorem mergeLogs_distinct_ids_keeps_all (prev incoming : list Log) :
  NoDup (map id (prev ++ incoming)) ->
  Permutation (mergeLogs prev incoming) (prev ++ incoming)
  /\ length (mergeLogs prev incoming) = (length prev + length incoming)%nat.
Proof.
  intros Hnd.
  assert (Hp : Permutation (mergeLogs prev incoming) (prev ++ incoming)).
  { unfold mergeLogs. etransitivity; [apply sort_by_perm|].
    rewrite merge_fold_fresh by exact Hnd. cbn [app JsMap.empty].
    now rewrite values_of_entries. }
  split; [exact Hp|].
  apply Permutation_length in Hp. now rewrite Hp, length_app.
Qed.

Lemma sort_by_sorted_id (A : Type) (cmp : A -> A -> Z) (l : list A) :
  StronglySorted (fun a b => (cmp a b >? 0) = false) l -> sort_by cmp l = l.
Proof.
  induction 1 as [|x t Hs IH Hall]; [reflexivity|].
  cbn [sort_by fold_right]. fold (sort_by cmp t). rewrite IH.
  destruct t as [|y t']; [reflexivity|].
  simpl. inversion Hall as [|? ? Hxy _]; subst. now rewrite Hxy.
Qed.

Lemma merge_fold_keys_present (ls : list Log) (m : JsMap.t Log) :
  (forall l, In l ls -> In (id l) (JsMap.keys m)) ->
  JsMap.keys (fold_left mergeLogs_step ls m) = JsMap.keys m.
Proof.
  revert m; induction ls as [|l t IH]; intros m H; simpl; [reflexivity|].
  rewrite mergeLogs_step_set.
  assert (Hk : JsMap.keys (JsMap.set (id l) l m) = JsMap.keys m).
  { rewrite JsMap_keys_set.
    assert (E : JsMap.has (id l) m = true) by (apply JsMap_has_In; apply H; now left).
    now rewrite E. }
  rewrite IH; [exact Hk|].
  intros x Hx. rewrite Hk. apply H. now right.
Qed.

Lemma get_of_entries (ls : list Log) (l : Log) :
  NoDup (map id ls) -> In l ls ->
  JsMap.get (id l) (map (fun x => (id x, x)) ls) = Some l.
Proof.
  intros Hnd Hin. apply JsMap_In_get.
  - now rewrite keys_of_entries.
  - apply in_map_iff. now exists l.
Qed.

(** A collection with distinct identifiers, in date order, that already
    holds the last incoming entry of every incoming identifier is left as
    it is. *)
Lemma mergeLogs_fixed (S incoming : list Log) :
  NoDup (map id S) ->
  StronglySorted (fun a b => str_ltb (date a) (date b) = false) S ->
  (forall i e, lastWithId i incoming = Some e -> In e S) ->
  mergeLogs S incoming = S.
Proof.
  intros Hnd Hs Hlast. unfold mergeLogs.
  rewrite fold_left_app.
  rewrite (@merge_fold_fresh S (JsMap.empty Log) Hnd).
  cbn [app JsMap.empty].
  set (m1 := map (fun l => (id l, l)) S).
  set (m := fold_left mergeLogs_step incoming m1).
  assert (Hids : forall l, In l incoming -> In (id l) (JsMap.keys m1)).
  { intros l Hl. destruct (lastWithId_In _ _ Hl) as [e He].
    pose proof (Hlast _ _ He) as HeS. apply lastWithId_id in He as [Hid _].
    unfold m1. rewrite keys_of_entries, <- Hid. now apply in_map. }
  assert (Hkeys : JsMap.keys m = map id S).
  { unfold m. rewrite merge_fold_keys_present by exact Hids.
    apply keys_of_entries. }
  assert (Hval : JsMap.values m = S).
  { rewrite (JsMap_by_keys (mkLog [] [] Other zero zero None) m)
      by (rewrite Hkeys; exact Hnd).
      rewrite Hkeys. unfold JsMap.values. rewrite !map_map. cbn [snd].
      rewrite <- (map_id S) at 2. apply map_ext_in. intros e He.
      unfold m. rewrite merge_fold_get.
      destruct (lastWithId (id e) incoming) as [x|] eqn:Ex.
      + pose proof (Hlast _ _ Ex) as HxS. apply lastWithId_id in Ex as [Hid _].
        (* two entries of S with the same identifier are the same entry *)
        clear - Hnd He HxS Hid. induction S as [|y t IH]; [destruct He|].
        simpl in Hnd. inversion Hnd as [|? ? Hnot Hnd']; subst.
        destruct He as [->|He], HxS as [->|HxS]; auto.
        * exfalso. apply Hnot. rewrite <- Hid. now apply in_map.
        * exfalso. apply Hnot. rewrite Hid. now apply in_map.
      + unfold m1. rewrite (@get_of_entries S e Hnd He). reflexivity. }
  rewrite Hval. apply sort_by_sorted_id.
  eapply StronglySorted_impl; [|exact Hs].
  intros a b. apply byDateDesc_before.
Qed.

Lemma mergeLogs_result_NoDup (prev incoming : list Log) :
  NoDup (map id (mergeLogs prev incoming)).
Proof.
  unfold mergeLogs.
  destruct (@merge_fold_inv _ (prev ++ incoming) (JsMap.empty Log))
    as [Hk Hnd]; [constructor|constructor|].
  eapply Permutation_NoDup.
  - apply Permutation_map. symmetry. apply sort_by_perm.
  - now rewrite keyed_values_ids.
Qed.

(** X9: merging is idempotent: merging the same incoming entries a second
    time, or merging nothing, leaves the result of a merge as it is; so
    importing a JSON file twice gives the collection of importing it
    once. *)
Theorem mergeLogs_idempotent (prev incoming : list Log) :
  mergeLogs (mergeLogs prev incoming) incoming = mergeLogs prev incoming
  /\ mergeLogs (mergeLogs prev incoming) [] = mergeLogs prev incoming.
Proof.
  split; apply mergeLogs_fixed;
    try apply mergeLogs_result_NoDup; try apply mergeLogs_sorted.
  - intros i e He. apply mergeLogs_In.
    destruct (lastWithId_id _ _ He) as [Hid _].
    now rewrite Hid, lastWithId_app, He.
  - intros i e He. discriminate He.
Qed.

End AppFacts2.

(** ** The CSV reader once more *)

(** The text with every line feed written as carriage return and line
    feed, and with every line feed written as a lone carriage return. *)
Definition withCRLF (t : jstring) : jstring :=
  flat_map (fun c => if N.eqb c LF then [CR; LF] else [c]) t.

Definition withCR (t : jstring) : jstring :=
  map (fun c => if N.eqb c LF then CR else c) t.

Lemma scanLine_split (line : jstring) (row : list jstring) (cur : jstring) :
  ~ In QUOTE line ->
  scanLine line row cur false
  = row ++ match str_split COMMA line with
           | p :: ps => (cur ++ p) :: ps
           | [] => [cur]
           end.
Proof.
  revert row cur. induction line as [|c t IH]; intros row cur Hq.
  - simpl. now rewrite app_nil_r.
  - rewrite scanLine_out. cbn [str_split].
    assert (Hc : c <> QUOTE) by (intros ->; apply Hq; now left).
    assert (Ht : ~ In QUOTE t) by (intros H; apply Hq; now right).
    destruct (N.eqb c COMMA) eqn:E.
    + rewrite IH by exact Ht. rewrite <- app_assoc, app_nil_r. cbn [app].
      pose proof (str_split_nonnil COMMA t) as Hn.
      destruct (str_split COMMA t); [congruence|reflexivity].
    + apply N.eqb_neq in Hc. rewrite Hc. rewrite IH by exact Ht.
      pose proof (str_split_nonnil COMMA t) as Hn.
      destruct (str_split COMMA t); [congruence|].
      now rewrite <- app_assoc.
Qed.

(** X10: on a line without a double quote the scanner of [parseCSV] cuts
    exactly at the commas: its cells are those of [line.split(",")]; in
    particular a line with n commas has n + 1 cells. *)
Theorem scanLine_without_quotes (line : jstring) :
  ~ In QUOTE line ->
  scanLine line [] [] false = str_split COMMA line
  /\ length (scanLine line [] [] false)
     = S (length (filter (N.eqb COMMA) line)).
Proof.
  intros Hq.
  assert (H : scanLine line [] [] false = str_split COMMA line).
  { rewrite scanLine_split by exact Hq. cbn [app].
    pose proof (str_split_nonnil COMMA line) as Hn.
    destruct (str_split COMMA line); [congruence|reflexivity]. }
  split; [exact H|]. rewrite H. clear.
  induction line as [|c t IH]; [reflexivity|].
  cbn [str_split filter]. rewrite (N.eqb_sym COMMA c).
  destruct (N.eqb c COMMA); cbn [length]; [now rewrite IH|].
  pose proof (str_split_nonnil COMMA t) as Hn.
  destruct (str_split COMMA t); [congruence|]. exact IH.
Qed.

Lemma normalizeNewlines_other (c : char) (s : jstring) :
  c <> CR -> normalizeNewlines (c :: s) = c :: normalizeNewlines s.
Proof.
  intros Hc. apply N.eqb_neq in Hc. destruct s; simpl; now rewrite Hc.
Qed.

Lemma normalizeNewlines_withCRLF (t : jstring) :
  ~ In CR t -> normalizeNewlines (withCRLF t) = t.
Proof.
  induction t as [|c t IH]; intros H; [reflexivity|].
  assert (Hc : c <> CR) by (intros ->; apply H; now left).
  assert (Ht : ~ In CR t) by (intros Hin; apply H; now right).
  unfold withCRLF. cbn [flat_map]. fold (withCRLF t).
  destruct (N.eqb_spec c LF) as [->|Hlf].
  - cbn [app]. rewrite normalizeNewlines_cons2, !N.eqb_refl. now rewrite IH.
  - cbn [app]. rewrite normalizeNewlines_other by exact Hc. now rewrite IH.
Qed.

Lemma normalizeNewlines_lone_CR (s : jstring) :
  hd 0%N s <> LF -> normalizeNewlines (CR :: s) = LF :: normalizeNewlines s.
Proof.
  destruct s as [|d s']; [reflexivity|]. cbn [hd]. intros Hd.
  rewrite normalizeNewlines_cons2, N.eqb_refl.
  apply N.eqb_neq in Hd. now rewrite Hd.
Qed.

Lemma withCR_head (t : jstring) : hd 0%N (withCR t) <> LF.
Proof.
  destruct t as [|d t]; [discriminate|]. cbn [withCR map hd].
  destruct (N.eqb_spec d LF); [discriminate|assumption].
Qed.

Lemma normalizeNewlines_withCR (t : jstring) :
  ~ In CR t -> normalizeNewlines (withCR t) = t.
Proof.
  induction t as [|c t IH]; intros H; [reflexivity|].
  assert (Hc : c <> CR) by (intros ->; apply H; now left).
  assert (Ht : ~ In CR t) by (intros Hin; apply H; now right).
  change (withCR (c :: t)) with ((if N.eqb c LF then CR else c) :: withCR t).
  destruct (N.eqb_spec c LF) as [->|Hlf].
  - rewrite normalizeNewlines_lone_CR by apply withCR_head. now rewrite IH.
  - rewrite normalizeNewlines_other by exact Hc. now rewrite IH.
Qed.

(** X11: the line ends of the file do not matter: a text whose line feeds
    are written as carriage return and line feed, or as a lone carriage
    return, is read as the same lines and parsed to the same rows. *)
Theorem parseCSV_line_ends (t : jstring) :
  ~ In CR t ->
  csvLines (withCRLF t) = csvLines t /\ parseCSV (withCRLF t) = parseCSV t
  /\ csvLines (withCR t) = csvLines t /\ parseCSV (withCR t) = parseCSV t.
Proof.
  intros H.
  assert (Hn : normalizeNewlines t = t).
  { apply normalizeNewlines_id. apply Forall_forall. intros c Hc ->. auto. }
  assert (H1 : csvLines (withCRLF t) = csvLines t).
  { unfold csvLines. now rewrite normalizeNewlines_withCRLF, Hn. }
  assert (H2 : csvLines (withCR t) = csvLines t).
  { unfold csvLines. now rewrite normalizeNewlines_withCR, Hn. }
  unfold parseCSV. rewrite H1, H2. auto.
Qed.

Section AppFacts3.
Context {Num : JsNumber}.

Lemma filterSome_mapi_In (A B : Type) (f : nat -> A -> option B)
      (rows : list A) (k : nat) (y : B) :
  In y (filterSome (mapi_from k f rows)) ->
  exists i r, nth_error rows i = Some r /\ f (k + i)%nat r = Some y.
Proof.
  revert k; induction rows as [|r t IH]; intros k; simpl; [tauto|].
  destruct (f k r) as [z|] eqn:E.
  - intros [->|Hin].
    + exists 0%nat, r. now rewrite Nat.add_0_r.
    + destruct (IH _ Hin) as (i & r' & Hn & Hf).
      exists (S i), r'. split; [exact Hn|]. now rewrite Nat.add_succ_r.
  - intros Hin. destruct (IH _ Hin) as (i & r' & Hn & Hf).
    exists (S i), r'. split; [exact Hn|]. now rewrite Nat.add_succ_r.
Qed.

Lemma filterSome_length (A : Type) (l : list (option A)) :
  (length (filterSome l) <= length l)%nat.
Proof. induction l as [|[x|] t IH]; simpl; lia. Qed.

(** X12: the CSV branch of the import validates what it builds: every
    entry it returns comes from a row of the file, has a date that is not
    empty and at most ten code units long, a weight and reps that are
    numbers and not 0 or less, a note that is absent or not blank, and the
    identifier made of its date, its exercise and the random suffix; rows
    that fail are dropped, so there are at most as many entries as rows. *)
Theorem csvRowsToLogs_valid (rnd : nat -> jstring) (rows : list CsvRow) :
  (length (csvRowsToLogs rnd rows) <= length rows)%nat
  /\ forall l, In l (csvRowsToLogs rnd rows) ->
       date l <> [] /\ (length (date l) <= 10)%nat
       /\ num_isNaN (weight l) = false /\ num_le (weight l) zero = false
       /\ num_isNaN (reps l) = false /\ num_le (reps l) zero = false
       /\ match note l with Some n => nonBlank n = true | None => True end
       /\ exists i r,
            nth_error rows i = Some r
            /\ date l = firstn 10 (row_date r)
            /\ exercise l = normalizeExercise (VStr (row_exercise r))
            /\ weight l = num_ofString (row_weight r)
            /\ reps l = num_ofString (row_reps r)
            /\ id l = date l ++ [DASH] ++ label (exercise l) ++ [DASH] ++ rnd i.
Proof.
  split.
  - unfold csvRowsToLogs, mapi. etransitivity; [apply filterSome_length|].
    now rewrite mapi_from_length.
  - intros l Hin. unfold csvRowsToLogs, mapi in Hin.
    apply filterSome_mapi_In in Hin as (i & r & Hn & Hf). cbn [Nat.add] in Hf.
    unfold csvRowToLog in Hf. cbv zeta in Hf.
    assert (Hd : slice0 10 (ToString (js_or (VStr (row_date r)) (VStr [])))
                 = firstn 10 (row_date r)).
    { unfold js_or. destruct (row_date r); reflexivity. }
    rewrite Hd in Hf. cbn [ToNumber] in Hf.
    remember (firstn 10 (row_date r)) as d eqn:Ed.
    destruct (negb (nonEmpty d)) eqn:E1; [discriminate|].
    destruct (num_isNaN (num_ofString (row_weight r))) eqn:E2; [discriminate|].
    destruct (num_isNaN (num_ofString (row_reps r))) eqn:E3; [discriminate|].
    destruct (num_le (num_ofString (row_weight r)) zero) eqn:E4; [discriminate|].
    destruct (num_le (num_ofString (row_reps r)) zero) eqn:E5; [discriminate|].
    cbn [orb] in Hf. injection Hf as <-. cbn [date weight reps note id exercise].
    split; [destruct d; [discriminate E1|discriminate]|].
    split; [rewrite Ed; apply firstn_le_length|].
    repeat (split; [assumption|]).
    split.
    + destruct (nonEmpty (row_note r) && nonBlank (row_note r)) eqn:En; [|exact I].
      now apply andb_true_iff in En.
    + exists i, r. repeat split; auto.
Qed.

(** ** The import handler once more *)

(** X13: no failure of the import touches the collection: with no file
    chosen the state is as it was; when [JSON.parse] throws on a [.json]
    file, and when a [.csv] file has no line, the failure message is shown
    and the collection is as it was; and the collection changes in no other
    way than by a merge whose size the message reports. *)
Theorem onImportFile_failures_keep_logs
        (JSON_parse : jstring -> result value) (fresh rnd : nat -> jstring)
        (st : AppState) :
  onImportFile JSON_parse fresh rnd st None = st
  /\ (forall f e,
        endsWith (file_name f) (js ".json") = true ->
        JSON_parse (file_text f) = Throw e ->
        onImportFile JSON_parse fresh rnd st (Some f)
        = {| logs := logs st; toast := MSG_IMPORT_FAILED |})
  /\ (forall f,
        endsWith (file_name f) (js ".json") = false ->
        endsWith (file_name f) (js ".csv") = true ->
        Forall (fun c => c = LF \/ c = CR) (file_text f) ->
        onImportFile JSON_parse fresh rnd st (Some f)
        = {| logs := logs st; toast := MSG_IMPORT_FAILED |})
  /\ (forall f,
        logs (onImportFile JSON_parse fresh rnd st (Some f)) = logs st
        \/ exists kind incoming,
             onImportFile JSON_parse fresh rnd st (Some f)
             = {| logs := mergeLogs (logs st) incoming;
                  toast := MSG_IMPORTED kind (length incoming) |}).
Proof.
  split; [reflexivity|]. split; [|split].
  - intros f e Hj Hp. unfold onImportFile. now rewrite Hj, Hp.
  - intros f Hj Hc Ht. unfold onImportFile. rewrite Hj, Hc.
    unfold parseCSV. now rewrite csvLines_breaks.
  - intros f. unfold onImportFile.
    destruct (endsWith (file_name f) (js ".json")).
    + destruct (JSON_parse (file_text f)); [right; eauto|now left].
    + destruct (endsWith (file_name f) (js ".csv")); [|now left].
      destruct (parseCSV (file_text f)); [right; eauto|now left].
Qed.



End AppFacts3.

(** ** Trimming *)

Lemma trimStart_head (s : jstring) :
  match trimStart s with [] => True | c :: _ => isWhiteSpace c = false end.
Proof.
  induction s as [|c s IH]; simpl; [exact I|].
  destruct (isWhiteSpace c) eqn:E; [exact IH|exact E].
Qed.

Lemma trimStart_split (s : jstring) : exists ws, s = ws ++ trimStart s.
Proof.
  induction s as [|c s [ws IH]]; simpl; [now exists []|].
  destruct (isWhiteSpace c).
  - exists (c :: ws). simpl. now f_equal.
  - now exists [].
Qed.

Lemma trim_idem (s : jstring) : trim (trim s) = trim s.
Proof.
  unfold trim.
  pose proof (trimStart_head s) as Ht. set (t := trimStart s) in *.
  pose proof (trimStart_head (rev t)) as Hu.
  destruct (trimStart_split (rev t)) as [ws E].
  set (u := trimStart (rev t)) in *.
  assert (Hru : trimStart (rev u) = rev u).
  { apply trimStart_id.
    assert (E' : t = rev u ++ rev ws).
    { rewrite <- (rev_involutive t), E. apply rev_app_distr. }
    destruct (rev u) as [|c r]; [exact I|].
    rewrite E' in Ht. exact Ht. }
  rewrite Hru, rev_involutive. f_equal. now apply trimStart_id.
Qed.

Lemma label_nonEmpty (e : Exercise) : nonEmpty (label e) = true.
Proof. now destruct e. Qed.

(** ** Calendar dates as strings *)

Lemma decimalZ_4digits (y : Z) :
  1000 <= y <= 9999 ->
  exists q3 q2 q1 q0 : N,
    (q3 < 10 /\ q2 < 10 /\ q1 < 10 /\ q0 < 10)%N
    /\ y = Z.of_N (1000 * q3 + 100 * q2 + 10 * q1 + q0)
    /\ decimalZ y = [48 + q3; 48 + q2; 48 + q1; 48 + q0]%N.
Proof.
  intros Hy.
  assert (Hall : forallb (fun i =>
                    forallb (fun j =>
                      let z := 1000 + 100 * Z.of_nat i + Z.of_nat j in
                      str_eqb (decimalZ z)
                              [48 + Z.to_N (z / 1000); 48 + Z.to_N (z / 100 mod 10);
                               48 + Z.to_N (z / 10 mod 10); 48 + Z.to_N (z mod 10)]%N)
                    (seq 0 100))
                  (seq 0 90) = true) by (vm_compute; reflexivity).
  rewrite forallb_forall in Hall.
  specialize (Hall (Z.to_nat ((y - 1000) / 100))).
  rewrite forallb_forall in Hall.
  assert (Hi : In (Z.to_nat ((y - 1000) / 100)) (seq 0 90)).
  { apply in_seq. Z.div_mod_to_equations; lia. }
  specialize (Hall Hi (Z.to_nat ((y - 1000) mod 100))).
  assert (Hj : In (Z.to_nat ((y - 1000) mod 100)) (seq 0 100)).
  { apply in_seq. Z.div_mod_to_equations; lia. }
  apply Hall in Hj. cbv zeta in Hj.
  replace (1000 + 100 * Z.of_nat (Z.to_nat ((y - 1000) / 100))
           + Z.of_nat (Z.to_nat ((y - 1000) mod 100))) with y in Hj
    by (Z.div_mod_to_equations; lia).
  apply str_eqb_spec in Hj. rename Hj into Hin.
  exists (Z.to_N (y / 1000)), (Z.to_N (y / 100 mod 10)),
         (Z.to_N (y / 10 mod 10)), (Z.to_N (y mod 10)).
  split; [|split; [|exact Hin]].
  - repeat split; Z.div_mod_to_equations; lia.
  - Z.div_mod_to_equations; lia.
Qed.

Lemma pad2_digits (n : N) :
  (n <= 31)%N ->
  exists p1 p0 : N,
    (p1 < 10 /\ p0 < 10)%N /\ n = (10 * p1 + p0)%N
    /\ pad2 n = [48 + p1; 48 + p0]%N.
Proof.
  intros H. exists (n / 10)%N, (n mod 10)%N.
  split; [|split; [|now apply pad2_small]].
  - split.
    + apply N.Div0.div_lt_upper_bound. lia.
    + apply N.mod_lt. discriminate.
  - apply N.div_mod. discriminate.
Qed.

(** X15: for a calendar date with a four-digit year [formatDate] yields the
    form yyyy-mm-dd, and on such dates the string order the program sorts
    and compares by is the calendar order: one formatted date is less than
    another exactly when its day comes first. *)
Theorem formatDate_order (a b : JsDate) :
  validDate a -> validDate b ->
  1000 <= getFullYear a <= 9999 -> 1000 <= getFullYear b <= 9999 ->
  isYMD (formatDate a) = true
  /\ (str_ltb (formatDate a) (formatDate b) = true
      <-> getFullYear a < getFullYear b
          \/ (getFullYear a = getFullYear b
              /\ ((getMonth a < getMonth b)%N
                  \/ (getMonth a = getMonth b /\ (getDate a < getDate b)%N)))).
Proof.
  destruct a as [y m d], b as [y' m' d'].
  unfold validDate, formatDate; cbn [getFullYear getMonth getDate].
  intros [Hm Hd] [Hm' Hd'] Hy Hy'.
  pose proof (daysInMonth_bounds y m) as Hb.
  pose proof (daysInMonth_bounds y' m') as Hb'.
  destruct (decimalZ_4digits Hy) as (q3 & q2 & q1 & q0 & Hq & -> & ->).
  destruct (decimalZ_4digits Hy') as (r3 & r2 & r1 & r0 & Hr & -> & ->).
  destruct (@pad2_digits (m + 1)) as (a1 & a0 & Ha & Ema & ->); [lia|].
  destruct (@pad2_digits (m' + 1)) as (b1 & b0 & Hb0 & Emb & ->); [lia|].
  destruct (@pad2_digits d) as (c1 & c0 & Hc & Ec & ->); [lia|].
  destruct (@pad2_digits d') as (e1 & e0 & He & Ee & ->); [lia|].
  cbn [app]. split.
  - cbn [isYMD]. unfold isDigit.
    repeat (apply andb_true_iff; split);
      first [apply N.eqb_refl | apply N.leb_le; lia].
  - cbn [str_ltb].
    repeat match goal with
           | |- context [N.ltb ?x ?y] => destruct (N.ltb_spec x y); cbv iota
           | |- context [N.eqb ?x ?y] => destruct (N.eqb_spec x y); cbv iota
           end;
      (split; [intros Hs; first [discriminate Hs | lia] | intros Hs; first [reflexivity | lia]]).
Qed.

Section AppFacts4.
Context {Num : JsNumber}.

Lemma canAdd_inv (form : Form) :
  canAdd form = true ->
  f_weight form <> [] /\ f_reps form <> []
  /\ num_isNaN (num_ofString (f_weight form)) = false
  /\ num_le (num_ofString (f_weight form)) zero = false
  /\ num_gt (num_ofString (f_weight form)) (of_Z 500) = false
  /\ num_isNaN (num_ofString (f_reps form)) = false
  /\ num_le (num_ofString (f_reps form)) zero = false
  /\ num_gt (num_ofString (f_reps form)) (of_Z 100) = false.
Proof.
  unfold canAdd, weightError, repsError. cbn [ToNumber].
  destruct (f_weight form) as [|cw w] eqn:Ew;
    [rewrite andb_false_r; discriminate|].
  destruct (f_reps form) as [|cr r] eqn:Er;
    [rewrite andb_false_r; discriminate|].
  cbn [nonEmpty negb]. rewrite label_nonEmpty. cbn [andb].
  destruct (num_isNaN (num_ofString (cw :: w))); [discriminate|].
  destruct (num_le (num_ofString (cw :: w)) zero); [discriminate|].
  destruct (num_gt (num_ofString (cw :: w)) (of_Z 500)); [discriminate|].
  destruct (num_isNaN (num_ofString (cr :: r)));
    [cbn [noError andb]; discriminate|].
  destruct (num_le (num_ofString (cr :: r)) zero);
    [cbn [noError andb]; discriminate|].
  destruct (num_gt (num_ofString (cr :: r)) (of_Z 100));
    [cbn [noError andb]; discriminate|].
  intros _. repeat split; discriminate.
Qed.

Lemma canAdd_intro (form : Form) :
  f_weight form <> [] -> f_reps form <> [] ->
  num_isNaN (num_ofString (f_weight form)) = false ->
  num_le (num_ofString (f_weight form)) zero = false ->
  num_gt (num_ofString (f_weight form)) (of_Z 500) = false ->
  num_isNaN (num_ofString (f_reps form)) = false ->
  num_le (num_ofString (f_reps form)) zero = false ->
  num_gt (num_ofString (f_reps form)) (of_Z 100) = false ->
  canAdd form = true.
Proof.
  intros Hw Hr H1 H2 H3 H4 H5 H6.
  unfold canAdd, weightError, repsError. cbn [ToNumber].
  rewrite H1, H2, H3, H4, H5, H6, label_nonEmpty.
  destruct (f_weight form); [now contradiction Hw|].
  destruct (f_reps form); [now contradiction Hr|]. reflexivity.
Qed.

(** X16: an accepted form adds exactly one entry, at the head of the
    collection: it carries the given identifier, the selected date, the
    chosen exercise and the numbers typed in, which are numbers, not 0 or
    less, and not above 500 (weight) and 100 (reps); its note is the
    trimmed text, absent when that is empty; the day is marked on the
    calendar; and the form is cleared, so that a second press adds
    nothing. *)
Theorem handleAdd_adds_valid_entry (uuid : jstring) (selectedDate : JsDate)
        (form : Form) (st : AppState) :
  canAdd form = true ->
  exists l form',
    handleAdd uuid selectedDate form st
    = (form', {| logs := l :: logs st; toast := MSG_ADDED |})
    /\ id l = uuid /\ date l = formatDate selectedDate
    /\ exercise l = f_exercise form
    /\ weight l = num_ofString (f_weight form)
    /\ reps l = num_ofString (f_reps form)
    /\ num_isNaN (weight l) = false /\ num_le (weight l) zero = false
    /\ num_gt (weight l) (of_Z 500) = false
    /\ num_isNaN (reps l) = false /\ num_le (reps l) zero = false
    /\ num_gt (reps l) (of_Z 100) = false
    /\ match note l with
       | Some n => n = trim (f_note form) /\ n <> [] /\ nonBlank n = true
       | None => trim (f_note form) = []
       end
    /\ hasLogs (l :: logs st) selectedDate = true
    /\ form' = mkForm (f_exercise form) [] [] []
    /\ forall uuid' st',
         handleAdd uuid' selectedDate form' st' = (form', st').
Proof.
  intros Hc. pose proof (canAdd_inv form Hc) as (_ & _ & H1 & H2 & H3 & H4 & H5 & H6).
  unfold handleAdd. rewrite Hc. cbn [negb]. cbv zeta.
  eexists. eexists. split; [reflexivity|].
  cbn [id date exercise weight reps note ToNumber].
  repeat (split; [first [reflexivity | assumption]|]).
  split; [|split; [|split; [reflexivity|]]].
  - destruct (trim (f_note form)) as [|c n] eqn:E; cbn [nonEmpty]; [reflexivity|].
    split; [reflexivity|]. split; [discriminate|].
    unfold nonBlank. rewrite <- E, trim_idem, E. reflexivity.
  - unfold hasLogs. cbn [existsb date]. now rewrite str_eqb_refl.
  - intros uuid' st'. unfold handleAdd, canAdd.
    cbn [f_weight f_reps f_exercise nonEmpty]. rewrite label_nonEmpty.
    reflexivity.
Qed.

(** X17: [handleAdd] leaves the form and the collection as they are
    exactly when a field is empty or a number is not acceptable: the
    weight or the reps field is empty, or reads as [NaN], or is 0 or less,
    or the weight is above 500, or the reps are above 100. *)
Theorem handleAdd_refuses_iff (uuid : jstring) (selectedDate : JsDate)
        (form : Form) (st : AppState) :
  let w := num_ofString (f_weight form) in
  let r := num_ofString (f_reps form) in
  handleAdd uuid selectedDate form st = (form, st)
  <-> (f_weight form = [] \/ f_reps form = []
       \/ num_isNaN w = true \/ num_le w zero = true
       \/ num_gt w (of_Z 500) = true
       \/ num_isNaN r = true \/ num_le r zero = true
       \/ num_gt r (of_Z 100) = true).
Proof.
  intros w r. subst w r. split.
  - intros H. destruct (canAdd form) eqn:Hc.
    + exfalso. unfold handleAdd in H. rewrite Hc in H. cbn [negb] in H.
      cbv zeta in H. injection H as _ H.
      apply (f_equal (fun s => length (logs s))) in H. cbn [logs length] in H.
      lia.
    + destruct (f_weight form) as [|cw wt] eqn:Ew; [now left|].
      destruct (f_reps form) as [|cr rp] eqn:Er; [now right; left|].
      destruct (num_isNaN (num_ofString (cw :: wt))) eqn:E1; [tauto|].
      destruct (num_le (num_ofString (cw :: wt)) zero) eqn:E2; [tauto|].
      destruct (num_gt (num_ofString (cw :: wt)) (of_Z 500)) eqn:E3; [tauto|].
      destruct (num_isNaN (num_ofString (cr :: rp))) eqn:E4; [tauto|].
      destruct (num_le (num_ofString (cr :: rp)) zero) eqn:E5; [tauto|].
      destruct (num_gt (num_ofString (cr :: rp)) (of_Z 100)) eqn:E6; [tauto|].
      exfalso. rewrite canAdd_intro in Hc; [discriminate| | | | | | | |];
        rewrite ?Ew, ?Er; first [discriminate | assumption].
  - intros H. destruct (canAdd form) eqn:Hc.
    + exfalso. apply canAdd_inv in Hc as (Hw & Hr & H1 & H2 & H3 & H4 & H5 & H6).
      destruct H as [H|[H|[H|[H|[H|[H|[H|H]]]]]]]; congruence.
    + unfold handleAdd. now rewrite Hc.
Qed.

(** ** The stored collection *)




(** X19: the initial state is safe against whatever is stored: with
    nothing stored, with an empty text, with a text [JSON.parse] rejects,
    and with a document that is neither an array nor an object with an
    array under [logs], the collection is empty; and every entry that is
    loaded has a non-empty identifier and date, a weight and reps that are
    not [NaN], and a note that is absent or not blank; there are at most
    as many entries as elements stored. *)
Theorem loadLogs_safe
        (JSON_parse : jstring -> result value) (fresh : nat -> jstring) :
  loadLogs JSON_parse fresh None = []
  /\ loadLogs JSON_parse fresh (Some []) = []
  /\ (forall raw e, JSON_parse raw = Throw e ->
        loadLogs JSON_parse fresh (Some raw) = [])
  /\ (forall raw doc, JSON_parse raw = Ok doc ->
        isArray doc = false -> isArray (prop doc "logs") = false ->
        loadLogs JSON_parse fresh (Some raw) = [])
  /\ (forall raw l, In l (loadLogs JSON_parse fresh (Some raw)) ->
        id l <> [] /\ date l <> []
        /\ num_isNaN (weight l) = false /\ num_isNaN (reps l) = false
        /\ match note l with Some n => nonBlank n = true | None => True end)
  /\ (forall raw items, JSON_parse raw = Ok (VArr items) ->
        (length (loadLogs JSON_parse fresh (Some raw)) <= length items)%nat).
Proof.
  split; [reflexivity|]. split; [reflexivity|]. split; [|split; [|split]].
  - intros raw e H. unfold loadLogs. rewrite H. now destruct (negb (nonEmpty raw)).
  - intros raw doc H Ha Hl. unfold loadLogs. rewrite H.
    destruct (negb (nonEmpty raw)); [reflexivity|].
    unfold storedArray. destruct doc; try discriminate Ha;
      rewrite Hl, andb_false_r; reflexivity.
  - intros raw l Hin. unfold loadLogs in Hin.
    destruct (negb (nonEmpty raw)); [destruct Hin|].
    destruct (JSON_parse raw) as [doc|]; [|destruct Hin].
    destruct (storedArray doc) as [arr|]; [|destruct Hin].
    unfold mapi in Hin.
    apply filterSome_mapi_In in Hin as (i & v & _ & Hf).
    unfold loadLogs_entry in Hf. cbv zeta in Hf.
    destruct (prop v "date") as [| | | |d| |]; try discriminate Hf.
    set (i0 := match prop v "id" with VStr s => s | _ => fresh (0 + i)%nat end) in *.
    destruct (nonEmpty i0) eqn:E1; [|discriminate Hf].
    destruct (nonEmpty d) eqn:E2; [|discriminate Hf].
    destruct (num_isNaN (ToNumber (prop v "weight"))) eqn:E3; [discriminate Hf|].
    destruct (num_isNaN (ToNumber (prop v "reps"))) eqn:E4; [discriminate Hf|].
    cbn [negb orb] in Hf. injection Hf as <-.
    cbn [id date weight reps note].
    split; [now destruct i0|]. split; [now destruct d|].
    split; [exact E3|]. split; [exact E4|].
    destruct (prop v "note") as [| | | |n| |]; try exact I.
    destruct (nonBlank n) eqn:En; [exact En|exact I].
  - intros raw items H. unfold loadLogs. rewrite H.
    destruct (negb (nonEmpty raw)); [cbn; lia|].
    cbn [storedArray]. unfold mapi.
    etransitivity; [apply filterSome_length|]. now rewrite mapi_from_length.
Qed.

End AppFacts4.

(* ================================================================= *)
(** * The variant backed by a database *)

Section Remote.
Context {Num : JsNumber}.

(** [canAdd] of the database variant: no upper limits. *)
Definition canAdd_remote (form : Form) : bool :=
  nonEmpty (label (f_exercise form))
  && nonEmpty (f_weight form) && nonEmpty (f_reps form)
  && num_gt (ToNumber (VStr (f_weight form))) zero
  && num_gt (ToNumber (VStr (f_reps form))) zero.

(** The row [handleAdd] of the database variant hands to [insert], [None]
    when it returns before the call. *)
Definition handleAdd_request (userId : jstring) (selectedDate : JsDate)
           (form : Form) : option MigrationRow :=
  if negb (canAdd_remote form) then None
  else
    let trimmedNote := trim (f_note form) in
    Some {| m_date := formatDate selectedDate;
            m_exercise := f_exercise form;
            m_weight := ToNumber (VStr (f_weight form));
            m_reps := ToNumber (VStr (f_reps form));
            m_note := if nonEmpty trimmedNote then Some trimmedNote else None;
            m_user_id := userId |}.

Lemma formatDate_nonEmpty (d : JsDate) : nonEmpty (formatDate d) = true.
Proof. unfold formatDate. now destruct (decimalZ (getFullYear d)). Qed.




(** X21: the add of the database variant submits only rows that its own
    migration would keep: the selected date, a weight and reps greater than
    0, the trimmed note or none, and the user's identifier; and whatever it
    accepts within the limits of the local form (weight not above 500, reps
    not above 100) the local form accepts as well. *)
Theorem handleAdd_request_valid (userId : jstring) (selectedDate : JsDate)
        (form : Form) :
  (forall row, handleAdd_request userId selectedDate form = Some row ->
     migrationKeeps row = true
     /\ m_date row = formatDate selectedDate /\ m_user_id row = userId
     /\ m_weight row = num_ofString (f_weight form)
     /\ m_reps row = num_ofString (f_reps form)
     /\ match m_note row with
        | Some n => n = trim (f_note form) /\ nonBlank n = true
        | None => trim (f_note form) = []
        end)
  /\ (handleAdd_request userId selectedDate form = None
      <-> canAdd_remote form = false)
  /\ (canAdd_remote form = true ->
      num_gt (num_ofString (f_weight form)) (of_Z 500) = false ->
      num_gt (num_ofString (f_reps form)) (of_Z 100) = false ->
      canAdd form = true).
Proof.
  split; [|split].
  - intros row H. unfold handleAdd_request in H.
    destruct (canAdd_remote form) eqn:Hc; [|discriminate H].
    cbn [negb] in H. cbv zeta in H. injection H as <-.
    unfold canAdd_remote in Hc.
    repeat (apply andb_true_iff in Hc as [Hc ?]).
    unfold migrationKeeps. cbn [m_date m_weight m_reps m_note m_user_id ToNumber] in *.
    rewrite formatDate_nonEmpty.
    split; [now apply andb_true_iff; split; [apply andb_true_iff; split|]|].
    repeat (split; [reflexivity|]).
    destruct (trim (f_note form)) as [|c n] eqn:E; cbn [nonEmpty]; [reflexivity|].
    split; [reflexivity|].
    unfold nonBlank. rewrite <- E, trim_idem, E. reflexivity.
  - unfold handleAdd_request. destruct (canAdd_remote form); cbn [negb];
      split; intros H; first [reflexivity | discriminate H].
  - intros Hc H500 H100. unfold canAdd_remote in Hc.
    repeat (apply andb_true_iff in Hc as [Hc ?]).
    cbn [ToNumber] in *.
    apply canAdd_intro; try assumption.
    + now destruct (f_weight form).
    + now destruct (f_reps form).
    + now apply num_pos_notNaN.
    + now apply num_pos_not_le.
    + now apply num_pos_notNaN.
    + now apply num_pos_not_le.
Qed.

End Remote.

(* ================================================================= *)
(** * The further theorems at concrete inputs *)







(** A filled-in form: 100 kg, 3 reps, a note with blanks around it. *)
Definition squatForm : Form :=
  mkForm Squat (js "100") (js "3") (js "  paused  ").

Lemma mergeLogs_distinct_ids_keeps_all_witness :
  NoDup (map id ([squat_100x3] ++ [bench_80x5]))
  /\ Permutation (mergeLogs [squat_100x3] [bench_80x5])
                 ([squat_100x3] ++ [bench_80x5]).
Proof.
  assert (H : NoDup (map id ([squat_100x3] ++ [bench_80x5]))).
  { apply NoDup_cons; [|apply NoDup_cons; [intros []|apply NoDup_nil]].
    intros [E|[]]. vm_compute in E. discriminate E. }
  split; [exact H|].
  apply (@mergeLogs_distinct_ids_keeps_all IntNum [squat_100x3] [bench_80x5] H).
Defined.

Lemma scanLine_without_quotes_witness :
  ~ In QUOTE (js "a,b,,c")
  /\ scanLine (js "a,b,,c") [] [] false = [js "a"; js "b"; []; js "c"].
Proof.
  assert (H : ~ In QUOTE (js "a,b,,c")).
  { intros Hin. vm_compute in Hin.
    repeat (destruct Hin as [E|Hin]; [discriminate E|]). destruct Hin. }
  split; [exact H|].
  rewrite (proj1 (@scanLine_without_quotes (js "a,b,,c") H)). reflexivity.
Defined.

Lemma parseCSV_line_ends_witness :
  let t := js "date,weight" ++ [LF] ++ js "2024-01-01,100" ++ [LF] in
  ~ In CR t /\ parseCSV (withCRLF t) = parseCSV t.
Proof.
  intros t.
  assert (H : ~ In CR t).
  { intros Hin. vm_compute in Hin.
    repeat (destruct Hin as [E|Hin]; [discriminate E|]). destruct Hin. }
  split; [exact H|].
  apply (@parseCSV_line_ends t H).
Defined.


Lemma formatDate_order_witness :
  let a := mkDate 2024 0 31 in
  let b := mkDate 2024 1 1 in
  validDate a /\ validDate b
  /\ formatDate a = js "2024-01-31" /\ formatDate b = js "2024-02-01"
  /\ str_ltb (formatDate a) (formatDate b) = true.
Proof.
  intros a b.
  assert (Ha : validDate a) by (unfold validDate; simpl; lia).
  assert (Hb : validDate b) by (unfold validDate; simpl; lia).
  assert (Hya : 1000 <= getFullYear a <= 9999) by (simpl; lia).
  assert (Hyb : 1000 <= getFullYear b <= 9999) by (simpl; lia).
  split; [exact Ha|]. split; [exact Hb|].
  split; [reflexivity|]. split; [reflexivity|].
  apply (proj2 (@formatDate_order a b Ha Hb Hya Hyb)).
  right. split; [reflexivity|]. left. simpl. lia.
Defined.

Lemma handleAdd_adds_valid_entry_witness :
  let st := mkState [squat_100x3] [] in
  canAdd squatForm = true
  /\ exists l,
       logs (snd (handleAdd (js "u1") (mkDate 2024 0 15) squatForm st))
       = [l; squat_100x3]
       /\ date l = js "2024-01-15" /\ note l = Some (js "paused").
Proof.
  intros st.
  assert (Hc : canAdd squatForm = true) by reflexivity.
  split; [exact Hc|].
  destruct (@handleAdd_adds_valid_entry IntNum (js "u1") (mkDate 2024 0 15)
              squatForm st Hc)
    as (l & form' & E & _ & Hd & _).
  exists l. rewrite E. split; [reflexivity|].
  split; [exact Hd|].
  injection E as _ E. rewrite <- E. reflexivity.
Defined.



(* ================================================================= *)
(** * Importing one's own CSV export, and the calendar marks *)

Section AppFacts5.
Context {Num : JsNumber}.







(** X23: the calendar marks exactly the days the list has something to
    show for: a day is marked if and only if the list of that day has at
    least one card, and an unmarked day has no entry and a total volume
    of 0. *)
Theorem hasLogs_iff_cards (logs : list Log) (d : JsDate) :
  (hasLogs logs d = true <-> renderedGroups logs (formatDate d) <> [])
  /\ (hasLogs logs d = false <-> logsForDate logs (formatDate d) = [])
  /\ (hasLogs logs d = false -> todayTotalVolume logs (formatDate d) = zero).
Proof.
  assert (Hday : hasLogs logs d = true <-> logsForDate logs (formatDate d) <> []).
  { unfold hasLogs, logsForDate. split.
    - intros H. apply existsb_exists in H as (l & Hl & Hd).
      intros E.
      assert (Hin : In l (filter (fun l => str_eqb (date l) (formatDate d)) logs))
        by (apply filter_In; auto).
      rewrite E in Hin. destruct Hin.
    - intros H.
      destruct (filter (fun l => str_eqb (date l) (formatDate d)) logs)
        as [|l t] eqn:E; [now contradiction H|].
      assert (Hin : In l (filter (fun l => str_eqb (date l) (formatDate d)) logs))
        by (rewrite E; now left).
      apply filter_In in Hin as [Hl Hd].
      apply existsb_exists. now exists l. }
  assert (Hno : hasLogs logs d = false <-> logsForDate logs (formatDate d) = []).
  { destruct (hasLogs logs d).
    - split; [discriminate|]. intros E. exfalso. now apply (proj1 Hday).
    - split; [|reflexivity]. intros _.
      destruct (logsForDate logs (formatDate d)) eqn:E; [reflexivity|].
      assert (H : false = true) by (apply Hday; discriminate). discriminate H. }
  split; [|split; [exact Hno|]].
  - rewrite Hday. split.
    + intros H.
      destruct (logsForDate logs (formatDate d)) as [|l t] eqn:E;
        [now contradiction H|].
      intros Er.
      assert (Hin : In (exercise l,
                        filter (fun x => Exercise_eqb (exercise x) (exercise l))
                               (logsForDate logs (formatDate d)),
                        volume (filter (fun x => Exercise_eqb (exercise x) (exercise l))
                                       (logsForDate logs (formatDate d))))
                       (renderedGroups logs (formatDate d))).
      { apply rendered_In. split; [|split; reflexivity].
        rewrite E. cbn [filter]. rewrite Exercise_eqb_refl. discriminate. }
      rewrite Er in Hin. destruct Hin.
    + intros H E.
      destruct (renderedGroups logs (formatDate d)) as [|[[ex arr] v] t] eqn:Er;
        [now contradiction H|].
      assert (Hin : In (ex, arr, v) (renderedGroups logs (formatDate d)))
        by (rewrite Er; now left).
      apply rendered_In in Hin as (Hne & Harr & _).
      rewrite E in Harr. now subst arr.
  - intros H. apply Hno in H. unfold todayTotalVolume. now rewrite H.
Qed.

End AppFacts5.


(* ================================================================= *)
(** * Importing in batches *)

Section AppFacts6.
Context {Num : JsNumber}.

Lemma NoDup_ids_eq (ls : list Log) (x y : Log) :
  NoDup (map id ls) -> In x ls -> In y ls -> id x = id y -> x = y.
Proof.
  induction ls as [|l t IH]; simpl; [tauto|].
  intros Hnd Hx Hy E. inversion Hnd as [|? ? Hnot Hnd']; subst.
  destruct Hx as [->|Hx], Hy as [->|Hy]; auto.
  - exfalso. apply Hnot. rewrite E. now apply in_map.
  - exfalso. apply Hnot. rewrite <- E. now apply in_map.
Qed.

Lemma lastWithId_mergeLogs (i : jstring) (prev incoming : list Log) :
  lastWithId i (mergeLogs prev incoming) = lastWithId i (prev ++ incoming).
Proof.
  destruct (lastWithId i (prev ++ incoming)) as [e|] eqn:E.
  - destruct (lastWithId_id _ _ E) as [Hid _]. subst i.
    apply mergeLogs_In in E.
    destruct (lastWithId_In _ _ E) as [e' He'].
    rewrite He'. f_equal.
    destruct (lastWithId_id _ _ He') as [Hid' Hin'].
    apply (@NoDup_ids_eq (mergeLogs prev incoming)); auto.
    apply mergeLogs_result_NoDup.
  - destruct (lastWithId i (mergeLogs prev incoming)) as [e'|] eqn:E';
      [|reflexivity].
    destruct (lastWithId_id _ _ E') as [Hid' Hin'].
    apply mergeLogs_In in Hin'. rewrite Hid' in Hin'. congruence.
Qed.

(** X24: importing in two batches keeps the same entries as importing
    both at once: merging [a] and then [b] into the collection yields the
    entries of merging [a ++ b], each exactly once (the order of entries of
    one date may differ). *)
Theorem mergeLogs_batches (prev a b : list Log) :
  (forall l, In l (mergeLogs (mergeLogs prev a) b)
             <-> In l (mergeLogs prev (a ++ b)))
  /\ Permutation (mergeLogs (mergeLogs prev a) b) (mergeLogs prev (a ++ b)).
Proof.
  assert (H : forall l, In l (mergeLogs (mergeLogs prev a) b)
                        <-> In l (mergeLogs prev (a ++ b))).
  { intros l. rewrite !mergeLogs_In.
    rewrite app_assoc.
    rewrite (lastWithId_app (id l) (mergeLogs prev a) b).
    rewrite (lastWithId_app (id l) (prev ++ a) b).
    rewrite lastWithId_mergeLogs. reflexivity. }
  split; [exact H|].
  apply NoDup_Permutation; [| |exact H].
  - eapply NoDup_map_inv. apply mergeLogs_result_NoDup.
  - eapply NoDup_map_inv. apply mergeLogs_result_NoDup.
Qed.

End AppFacts6.

(* ================================================================= *)
(** * A date with a time of day through the JSON round trip *)


